(** * PowerScope: the bulk renamer [View/UserControls/rename.py]

    A shallow embedding of the script and of the parts of the Python
    runtime it calls ([str] operations, text-mode files, [os.walk]),
    followed by the properties of the renamer.

    Conventions.
    - A Python [str] is a sequence of code points: [str := list N].
    - A file holds bytes: [list byte].
    - Text-mode I/O ([open(p, 'r', encoding='utf-8')] with the default
      [newline=None]) decodes strict UTF-8 and then applies universal
      newline translation; writing translates each line feed to the
      platform line separator and encodes to UTF-8.
    - Effects are made explicit: every operation returns the new file
      (or tree), the trace of events it performed and the exception it
      raised, if any. *)

From Stdlib Require Import Strings.Byte Strings.Ascii Strings.String.
From Stdlib Require Import List NArith ZArith Bool Arith Lia Permutation.
Import ListNotations.

Set Implicit Arguments.

Local Open Scope N_scope.

(** ** Python strings *)

Definition str := list N.

(** ASCII literals of the source, as code point sequences. *)
Definition lit (s : string) : str :=
  map N_of_ascii (list_ascii_of_string s).

Module Str.

(** [s.startswith(p)] *)
Fixpoint startswith (p s : str) : bool :=
  match p, s with
  | [], _ => true
  | _ :: _, [] => false
  | a :: p', b :: s' => (a =? b) && startswith p' s'
  end.

(** [s == t] *)
Fixpoint eqb (s t : str) : bool :=
  match s, t with
  | [], [] => true
  | a :: s', b :: t' => (a =? b) && eqb s' t'
  | _, _ => false
  end.

(** [s.endswith(suf)]: the last [len(suf)] code points of [s] are
    [suf]. *)
Definition endswith (suf s : str) : bool :=
  (length suf <=? length s)%nat
  && eqb (skipn (length s - length suf) s) suf.

(** [p in s]: [p] occurs in [s] as a contiguous substring. *)
Fixpoint contains (p s : str) : bool :=
  startswith p s
  || match s with
     | [] => false
     | _ :: t => contains p t
     end.

(** [s.find(p)]: index of the leftmost occurrence. *)
Fixpoint find (p s : str) : option nat :=
  if startswith p s then Some O
  else match s with
       | [] => None
       | _ :: t => option_map S (find p t)
       end.

(** The copying loop of [s.replace(old, new)] for a non-empty [old]:
    look for the leftmost occurrence at or after the current position,
    copy the text before it, copy [new], and resume right after the
    matched region.  Every round consumes at least one code point, so
    [length s] rounds are enough; [fuel] counts them. *)
Fixpoint replace_loop (fuel : nat) (old new s : str) : str :=
  match fuel with
  | O => s
  | S fuel' =>
      match find old s with
      | None => s
      | Some j =>
          firstn j s ++ new
            ++ replace_loop fuel' old new (skipn (j + length old) s)
      end
  end.

(** [s.replace(old, new)].  For an empty [old] Python puts [new]
    at the start and after every code point. *)
Definition replace (old new s : str) : str :=
  match old with
  | [] => new ++ flat_map (fun c => c :: new) s
  | _ :: _ => replace_loop (length s) old new s
  end.

End Str.

(** ** UTF-8 (RFC 3629), as Python's strict [utf-8] codec *)

Module Utf8.

Definition in_range (lo hi n : N) : bool := (lo <=? n) && (n <=? hi).

(** A byte from its value; values above 255 never reach it. *)
Definition byte_of (n : N) : byte :=
  match Byte.of_N n with
  | Some b => b
  | None => x00
  end.

(** The bounds on the byte that follows the lead byte [n0] of a
    three-byte or four-byte form: they exclude overlong forms,
    surrogates and code points above U+10FFFF. *)
Definition lo3 (n0 : N) : N := if n0 =? 0xE0 then 0xA0 else 0x80.
Definition hi3 (n0 : N) : N := if n0 =? 0xED then 0x9F else 0xBF.
Definition lo4 (n0 : N) : N := if n0 =? 0xF0 then 0x90 else 0x80.
Definition hi4 (n0 : N) : N := if n0 =? 0xF4 then 0x8F else 0xBF.

(** The code point of a two-, three- and four-byte form. *)
Definition cp2 (n0 n1 : N) : N := (n0 - 0xC0) * 64 + (n1 - 0x80).
Definition cp3 (n0 n1 n2 : N) : N :=
  (n0 - 0xE0) * 4096 + (n1 - 0x80) * 64 + (n2 - 0x80).
Definition cp4 (n0 n1 n2 n3 : N) : N :=
  (n0 - 0xF0) * 262144 + (n1 - 0x80) * 4096 + (n2 - 0x80) * 64
  + (n3 - 0x80).

(** Strict decoding: overlong forms, surrogates and code points above
    U+10FFFF are rejected, as are truncated sequences. *)
Fixpoint decode (bs : list byte) : option str :=
  match bs with
  | [] => Some []
  | b0 :: t0 =>
      let n0 := Byte.to_N b0 in
      if n0 <? 0x80 then option_map (cons n0) (decode t0)
      else if n0 <? 0xC2 then None
      else if n0 <? 0xE0 then
        match t0 with
        | b1 :: t1 =>
            if in_range 0x80 0xBF (Byte.to_N b1)
            then option_map (cons (cp2 n0 (Byte.to_N b1))) (decode t1)
            else None
        | _ => None
        end
      else if n0 <? 0xF0 then
        match t0 with
        | b1 :: b2 :: t2 =>
            if in_range (lo3 n0) (hi3 n0) (Byte.to_N b1)
               && in_range 0x80 0xBF (Byte.to_N b2)
            then option_map
                   (cons (cp3 n0 (Byte.to_N b1) (Byte.to_N b2)))
                   (decode t2)
            else None
        | _ => None
        end
      else if n0 <? 0xF5 then
        match t0 with
        | b1 :: b2 :: b3 :: t3 =>
            if in_range (lo4 n0) (hi4 n0) (Byte.to_N b1)
               && in_range 0x80 0xBF (Byte.to_N b2)
               && in_range 0x80 0xBF (Byte.to_N b3)
            then option_map
                   (cons (cp4 n0 (Byte.to_N b1) (Byte.to_N b2)
                            (Byte.to_N b3)))
                   (decode t3)
            else None
        | _ => None
        end
      else None
  end.

(** The code points that have a UTF-8 encoding: Unicode scalar values. *)
Definition scalar (c : N) : bool :=
  (c <? 0xD800) || ((0xDFFF <? c) && (c <? 0x110000)).

Definition encode_cp (c : N) : list byte :=
  if c <? 0x80 then [byte_of c]
  else if c <? 0x800 then
    [byte_of (0xC0 + c / 64); byte_of (0x80 + c mod 64)]
  else if c <? 0x10000 then
    [byte_of (0xE0 + c / 4096); byte_of (0x80 + (c / 64) mod 64);
     byte_of (0x80 + c mod 64)]
  else
    [byte_of (0xF0 + c / 262144); byte_of (0x80 + (c / 4096) mod 64);
     byte_of (0x80 + (c / 64) mod 64); byte_of (0x80 + c mod 64)].

(** Strict encoding: [None] stands for [UnicodeEncodeError]. *)
Fixpoint encode (s : str) : option (list byte) :=
  match s with
  | [] => Some []
  | c :: t =>
      if scalar c
      then option_map (app (encode_cp c)) (encode t)
      else None
  end.

End Utf8.

(** ** The platform, text-mode files *)

(** [os.linesep] is a line feed on POSIX and carriage return, line feed
    on Windows. *)
Inductive linesep := LF | CRLF.

(** What the script takes from its platform: the line separator and
    the path join of the [os] module, and whether [print] can write a
    given line to standard output.  It cannot when the line holds a
    code point that the encoding of standard output lacks, or when the
    stream does not take it. *)
Record platform := {
  os_linesep : linesep;
  os_path_join : str -> str -> str;
  os_stdout_accepts : str -> bool
}.

Module Text.

Definition cr : N := 13.
Definition lf : N := 10.

(** Universal newlines on input: [\r\n] and a lone [\r] are read as
    [\n]. *)
Fixpoint translate_in (s : str) : str :=
  match s with
  | [] => []
  | c :: t =>
      if c =? cr then
        lf :: match t with
              | d :: t' => if d =? lf then translate_in t'
                           else translate_in t
              | [] => []
              end
      else c :: translate_in t
  end.

(** On output every [\n] is written as [os.linesep]. *)
Fixpoint translate_out (sep : linesep) (s : str) : str :=
  match s with
  | [] => []
  | c :: t =>
      if c =? lf then
        match sep with
        | LF => lf :: translate_out sep t
        | CRLF => cr :: lf :: translate_out sep t
        end
      else c :: translate_out sep t
  end.

(** No carriage return occurs in [s]. *)
Definition no_cr (s : str) : bool :=
  forallb (fun c => negb (c =? cr)) s.

(** [f.read()] on a file opened with [open(p, 'r', encoding='utf-8')];
    [None] stands for [UnicodeDecodeError]. *)
Definition read (data : list byte) : option str :=
  option_map translate_in (Utf8.decode data).

(** The bytes [f.write(s)] stores in a file opened with
    [open(p, 'w', encoding='utf-8')]; [None] stands for
    [UnicodeEncodeError]. *)
Definition write (os : platform) (s : str) : option (list byte) :=
  Utf8.encode (translate_out (os_linesep os) s).

End Text.

(** ** Files, directories, effects *)

Record file := {
  f_name : str;
  f_data : list byte;
  f_readable : bool;
  f_writable : bool
}.

(** A directory as [os.walk] sees it: its plain files and its
    subdirectories, each in the order the directory enumerates them.
    The model covers trees of plain files and directories that can be
    listed; links are outside it.  A file carries the two permissions
    that decide whether [open] succeeds. *)
#[warnings="-register-all"]
Inductive dir :=
| Dir (files : list file) (subdirs : list (str * dir)).

Inductive mode := ModeR | ModeW.

Inductive event :=
| Open (filepath : str) (m : mode)
| Print (line : str).

(** [StdoutError line] stands for the exception [print(line)] raises
    when standard output does not accept the line
    ([UnicodeEncodeError] or [OSError]). *)
Inductive exn :=
| PermissionError (filepath : str)
| UnicodeEncodeError
| StdoutError (line : str).

(** The outcome of a piece of the run: the state it leaves, the events
    it performed, and the exception that ended it, if one did. *)
Record res (A : Type) := {
  r_val : A;
  r_events : list event;
  r_exn : option exn
}.

Definition ret {A} (x : A) : res A :=
  {| r_val := x; r_events := []; r_exn := None |}.

Definition res_map {A B} (g : A -> B) (r : res A) : res B :=
  {| r_val := g (r_val r); r_events := r_events r; r_exn := r_exn r |}.

(** A [for] loop whose body updates the element it visits: the loop
    stops at the first exception and leaves the rest untouched. *)
Definition for_each {A} (body : A -> res A) : list A -> res (list A) :=
  fix loop (l : list A) : res (list A) :=
    match l with
    | [] => ret []
    | x :: rest =>
        let r := body x in
        match r_exn r with
        | Some e =>
            {| r_val := r_val r :: rest;
               r_events := r_events r;
               r_exn := Some e |}
        | None =>
            let r' := loop rest in
            {| r_val := r_val r :: r_val r';
               r_events := r_events r ++ r_events r';
               r_exn := r_exn r' |}
        end
    end.

(** Sequencing of two pieces of a run that act on the two parts [a]
    and [b] of a state [mk a b]: the second piece runs only if the
    first raised nothing. *)
Definition and_then {A B C} (mk : A -> B -> C)
    (ra : res A) (b : B) (k : B -> res B) : res C :=
  match r_exn ra with
  | Some e =>
      {| r_val := mk (r_val ra) b;
         r_events := r_events ra;
         r_exn := Some e |}
  | None =>
      let rb := k b in
      {| r_val := mk (r_val ra) (r_val rb);
         r_events := r_events ra ++ r_events rb;
         r_exn := r_exn rb |}
  end.

Definition set_data (f : file) (data : list byte) : file :=
  {| f_name := f_name f; f_data := data;
     f_readable := f_readable f; f_writable := f_writable f |}.

(** ** The script *)

Section Renamer.

Variable os : platform.

Definition skipped_line (filepath : str) : str :=
  lit "Skipped (decode error): " ++ filepath.

Definition replaced_line (filepath : str) : str :=
  lit "Replaced in: " ++ filepath.

(** [print(line)] once the file is [f] and the events [done] were
    performed: the line reaches standard output, or [print] raises and
    nothing is printed. *)
Definition print_line (line : str) (f : file) (done : list event)
  : res file :=
  if os_stdout_accepts os line
  then {| r_val := f; r_events := done ++ [Print line]; r_exn := None |}
  else {| r_val := f; r_events := done;
          r_exn := Some (StdoutError line) |}.

(** [replace_in_file(filepath, old, new)], acting on the file [f] that
    [filepath] names.  Opening for writing truncates the file before
    anything is written.  An [Open] event is a call of [open], a
    [Print] event a line that reached standard output. *)
Definition replace_in_file (filepath old new : str) (f : file)
  : res file :=
  if negb (f_readable f) then
    {| r_val := f;
       r_events := [Open filepath ModeR];
       r_exn := Some (PermissionError filepath) |}
  else
    match Text.read (f_data f) with
    | None =>
        print_line (skipped_line filepath) f [Open filepath ModeR]
    | Some content =>
        if Str.contains old content then
          let content' := Str.replace old new content in
          if negb (f_writable f) then
            {| r_val := f;
               r_events := [Open filepath ModeR; Open filepath ModeW];
               r_exn := Some (PermissionError filepath) |}
          else
            match Text.write os content' with
            | None =>
                {| r_val := set_data f [];
                   r_events := [Open filepath ModeR;
                                Open filepath ModeW];
                   r_exn := Some UnicodeEncodeError |}
            | Some bytes =>
                print_line (replaced_line filepath) (set_data f bytes)
                  [Open filepath ModeR; Open filepath ModeW]
            end
        else
          {| r_val := f;
             r_events := [Open filepath ModeR];
             r_exn := None |}
    end.

(** [filename.endswith('.xaml') or filename.endswith('.cs')] *)
Definition is_candidate (filename : str) : bool :=
  Str.endswith (lit ".xaml") filename || Str.endswith (lit ".cs") filename.

(** The body of the inner loop, for one [filename] of [dirpath]. *)
Definition visit_file (dirpath old new : str) (f : file) : res file :=
  if is_candidate (f_name f)
  then replace_in_file (os_path_join os dirpath (f_name f)) old new f
  else ret f.

(** [process_directory(root_dir, old, new)] on the tree [d] rooted at
    [root_dir].  [os.walk] yields a directory with its file names
    first and then descends into its subdirectories in turn, each
    under the path joined from its parent's and its own name. *)
Fixpoint process_directory (root_dir old new : str) (d : dir)
  : res dir :=
  match d with
  | Dir files subdirs =>
      let rf := for_each (visit_file root_dir old new) files in
      match r_exn rf with
      | Some e =>
          {| r_val := Dir (r_val rf) subdirs;
             r_events := r_events rf;
             r_exn := Some e |}
      | None =>
          let rs :=
            for_each
              (fun sub : str * dir =>
                 res_map (pair (fst sub))
                   (process_directory
                      (os_path_join os root_dir (fst sub)) old new
                      (snd sub)))
              subdirs in
          {| r_val := Dir (r_val rf) (r_val rs);
             r_events := r_events rf ++ r_events rs;
             r_exn := r_exn rs |}
      end
  end.

(** The strings of the [__main__] block. *)
Definition OLD : str := lit "SerialPlotDN_WPF".
Definition NEW : str := lit "PowerScope".

(** The [__main__] block; [root_dir] is the absolute path it computes
    from the script's location. *)
Definition main (root_dir : str) (d : dir) : res dir :=
  process_directory root_dir OLD NEW d.

End Renamer.

(** ** The run seen file by file *)

Section FlatView.

Variable os : platform.

(** The files [os.walk] reaches from [root_dir], each with the path the
    script joins for it, in the order the script visits them. *)
Fixpoint files_of (root_dir : str) (d : dir) : list (str * file) :=
  match d with
  | Dir files subdirs =>
      map (fun f => (os_path_join os root_dir (f_name f), f)) files
      ++ flat_map
           (fun sub : str * dir =>
              files_of (os_path_join os root_dir (fst sub)) (snd sub))
           subdirs
  end.

(** What the script does for one entry of that list. *)
Definition visit_entry (old new : str) (e : str * file)
  : res (str * file) :=
  if is_candidate (f_name (snd e))
  then res_map (pair (fst e)) (replace_in_file os (fst e) old new (snd e))
  else ret e.

(** The file a visit leaves behind; it does not depend on the path. *)
Definition file_after (old new : str) (f : file) : file :=
  if is_candidate (f_name f)
  then r_val (replace_in_file os [] old new f)
  else f.

End FlatView.

(** The same function applied to every file of a tree, at any depth. *)
Fixpoint dir_map (g : file -> file) (d : dir) : dir :=
  match d with
  | Dir files subdirs =>
      Dir (map g files)
          (map (fun sub : str * dir => (fst sub, dir_map g (snd sub)))
               subdirs)
  end.

(** ** Enumeration orders *)

(** [reordered d d']: the trees [d] and [d'] hold the same files and
    directories, enumerated in a different order at any level. *)
Inductive reordered : dir -> dir -> Prop :=
| reordered_dir : forall files files' subdirs subdirs',
    Permutation files files' ->
    reordered_subdirs subdirs subdirs' ->
    reordered (Dir files subdirs) (Dir files' subdirs')
with reordered_subdirs : list (str * dir) -> list (str * dir) -> Prop :=
| reordered_nil : reordered_subdirs [] []
| reordered_skip : forall name d d' l l',
    reordered d d' -> reordered_subdirs l l' ->
    reordered_subdirs ((name, d) :: l) ((name, d') :: l')
| reordered_swap : forall x y l,
    reordered_subdirs (y :: x :: l) (x :: y :: l)
| reordered_trans : forall l1 l2 l3,
    reordered_subdirs l1 l2 -> reordered_subdirs l2 l3 ->
    reordered_subdirs l1 l3.

Scheme reordered_mut := Minimality for reordered Sort Prop
  with reordered_subdirs_mut := Minimality for reordered_subdirs Sort Prop.

(** ** Substitution as the specification words it *)

(** [Substituted old new s out]: [out] is [s] with its occurrences of
    [old] replaced from left to right.  Either [old] does not occur and
    the text is kept, or the text splits at the leftmost occurrence,
    the part before it is kept, [new] stands for the occurrence, and
    substitution goes on in the part after the matched region only. *)
Inductive Substituted (old new : str) : str -> str -> Prop :=
| Subst_none : forall s,
    (forall a b, s <> a ++ old ++ b) ->
    Substituted old new s s
| Subst_match : forall pre rest out,
    (forall a b, pre ++ old ++ rest = a ++ old ++ b ->
                 (length pre <= length a)%nat) ->
    Substituted old new rest out ->
    Substituted old new (pre ++ old ++ rest) (pre ++ new ++ out).

(** The replacement text inserted before every code point and once at
    the end. *)
Definition interleaved (new s : str) : str :=
  flat_map (fun c => new ++ [c]) s ++ new.

(** ** When a replacement cannot bring the search string back *)

(** Two strings agree when one is a prefix of the other. *)
Fixpoint agree (a b : str) : bool :=
  match a, b with
  | x :: a', y :: b' => (x =? y) && agree a' b'
  | _, _ => true
  end.

(** The non-empty suffixes of a string. *)
Fixpoint tails (s : str) : list str :=
  match s with
  | [] => []
  | _ :: t => s :: tails t
  end.

(** No occurrence of [old] can start or end inside an inserted [new]:
    no non-empty suffix of [old] agrees with [new], and [old] agrees
    with no non-empty suffix of [new]. *)
Definition no_overlap (old new : str) : bool :=
  forallb (fun u => negb (agree u new)) (tails old)
  && forallb (fun v => negb (agree old v)) (tails new).

(** ** Concrete platforms and trees *)

Definition slash : N := 47.

(** [posixpath.join(a, b)] *)
Definition posix_join (a b : str) : str :=
  if Str.startswith [slash] b then b
  else if (Nat.eqb (length a) 0) || Str.endswith [slash] a then a ++ b
  else a ++ slash :: b.

(** POSIX with standard output in strict UTF-8: a line is accepted
    when it holds Unicode scalar values only. *)
Definition posix : platform :=
  {| os_linesep := LF;
     os_path_join := posix_join;
     os_stdout_accepts := forallb Utf8.scalar |}.

Definition text_file (name data : string) : file :=
  {| f_name := lit name;
     f_data := list_byte_of_string data;
     f_readable := true;
     f_writable := true |}.

(** The tree of the specification's scenario. *)
Definition scenario : dir :=
  Dir [text_file "readme.md" "SerialPlotDN_WPF"]
      [(lit "a",
        Dir [text_file "Main.xaml" "Name: SerialPlotDN_WPF"]
            [(lit "b",
              Dir [text_file "Util.cs" "namespace SerialPlotDN_WPF {}"]
                  [])])].

Definition scenario_after : dir :=
  Dir [text_file "readme.md" "SerialPlotDN_WPF"]
      [(lit "a",
        Dir [text_file "Main.xaml" "Name: PowerScope"]
            [(lit "b",
              Dir [text_file "Util.cs" "namespace PowerScope {}"]
                  [])])].



(** A file that is not UTF-8: a lone continuation byte. *)
Definition binary_file : file :=
  {| f_name := lit "Blob.cs";
     f_data := [x53; x80; x65];
     f_readable := true;
     f_writable := true |}.

(** A file with a Windows line end: [X], carriage return, line feed. *)
Definition crlf_file : file :=
  {| f_name := lit "Crlf.cs";
     f_data := [x58; x0d; x0a];
     f_readable := true;
     f_writable := true |}.

(** A file of two lines with a Windows line end: [a], carriage
    return, line feed, [b]. *)
Definition two_line_file : file :=
  {| f_name := lit "Two.cs";
     f_data := [x61; x0d; x0a; x62];
     f_readable := true;
     f_writable := true |}.

(** A file that is not UTF-8 and whose name cannot be printed: the
    name starts with the lone surrogate U+DC80, as Python decodes a
    file name with the stray byte 80. *)
Definition unprintable_file : file :=
  {| f_name := 56448 :: lit ".cs";
     f_data := [x80];
     f_readable := true;
     f_writable := true |}.

Definition unprintable_tree : dir :=
  Dir [unprintable_file; text_file "B.cs" "SerialPlotDN_WPF"] [].

(** A file that is not UTF-8 and holds the bytes of the search string
    of [__main__]. *)
Definition stale_file : file :=
  {| f_name := lit "Stale.cs";
     f_data := list_byte_of_string "SerialPlotDN_WPF" ++ [x80];
     f_readable := true;
     f_writable := true |}.

(** A file that holds the search string of [__main__] and whose name
    cannot be printed, followed by a file that holds the search string
    too. *)
Definition unprintable_match : file :=
  {| f_name := 56448 :: lit ".cs";
     f_data := list_byte_of_string "SerialPlotDN_WPF";
     f_readable := true;
     f_writable := true |}.

Definition unprintable_match_tree : dir :=
  Dir [unprintable_match; text_file "B.cs" "SerialPlotDN_WPF"] [].

(** One tree under two enumeration orders. *)
Definition wide_tree : dir :=
  Dir [text_file "A.cs" "using SerialPlotDN_WPF;";
       text_file "B.xaml" "x:Class=SerialPlotDN_WPF.B"]
      [(lit "x", Dir [text_file "X.cs" "SerialPlotDN_WPF.X"] []);
       (lit "y", Dir [text_file "Y.cs" "no match"] [])].

Definition wide_tree_reordered : dir :=
  Dir [text_file "B.xaml" "x:Class=SerialPlotDN_WPF.B";
       text_file "A.cs" "using SerialPlotDN_WPF;"]
      [(lit "y", Dir [text_file "Y.cs" "no match"] []);
       (lit "x", Dir [text_file "X.cs" "SerialPlotDN_WPF.X"] [])].

(** ** The root directory of the [__main__] block, on POSIX *)

Module Posixpath.

Definition sep : N := 47.
Definition dot : str := [46].
Definition dotdot : str := [46; 46].

Definition is_sep (c : N) : bool := c =? sep.

(** [isabs(s)] *)
Definition isabs (s : str) : bool := Str.startswith [sep] s.

(** [p.rfind(sep) + 1]: the index after the last separator, zero if
    there is none. *)
Fixpoint after_last_sep (p : str) : nat :=
  match p with
  | [] => O
  | c :: t =>
      match after_last_sep t with
      | O => if is_sep c then 1%nat else O
      | S i => S (S i)
      end
  end.

(** [head.rstrip(sep)] *)
Fixpoint rstrip (head : str) : str :=
  match head with
  | [] => []
  | c :: t =>
      match rstrip t with
      | [] => if is_sep c then [] else [c]
      | t' => c :: t'
      end
  end.

(** [dirname(p)] *)
Definition dirname (p : str) : str :=
  let head := firstn (after_last_sep p) p in
  if negb (Nat.eqb (length head) 0) && negb (forallb is_sep head)
  then rstrip head
  else head.

(** [path.split(sep)] *)
Fixpoint split (path : str) : list str :=
  match path with
  | [] => [[]]
  | c :: t =>
      if is_sep c then [] :: split t
      else match split t with
           | comp :: comps => (c :: comp) :: comps
           | [] => [[c]]
           end
  end.

(** [sep.join(comps)] *)
Fixpoint join_sep (comps : list str) : str :=
  match comps with
  | [] => []
  | [comp] => comp
  | comp :: rest => comp ++ sep :: join_sep rest
  end.

(** One round of the loop of [normpath].  [new_comps] is kept with its
    last element first, so that appending is [cons] and [pop] drops
    the head. *)
Definition norm_step (initial_slashes : nat) (new_comps : list str)
    (comp : str) : list str :=
  if Str.eqb comp [] || Str.eqb comp dot then new_comps
  else if negb (Str.eqb comp dotdot)
          || (Nat.eqb initial_slashes 0
              && Nat.eqb (length new_comps) 0)
          || match new_comps with
             | last :: _ => Str.eqb last dotdot
             | [] => false
             end
  then comp :: new_comps
  else match new_comps with
       | _ :: rest => rest
       | [] => []
       end.

(** [normpath(path)] *)
Definition normpath (path : str) : str :=
  match path with
  | [] => dot
  | _ :: _ =>
      let initial_slashes :=
        if Str.startswith [sep] path then
          if Str.startswith [sep; sep] path
             && negb (Str.startswith [sep; sep; sep] path)
          then 2%nat else 1%nat
        else O in
      let new_comps :=
        fold_left (norm_step initial_slashes) (split path) [] in
      let path' :=
        repeat sep initial_slashes ++ join_sep (rev new_comps) in
      match path' with
      | [] => dot
      | _ :: _ => path'
      end
  end.

(** [abspath(path)], in the working directory [cwd]. *)
Definition abspath (cwd path : str) : str :=
  normpath (if isabs path then path else posix_join cwd path).

(** [os.path.abspath(os.path.join(os.path.dirname(__file__), '..',
    '..'))], the [root_dir] of the [__main__] block. *)
Definition root_dir (cwd file : str) : str :=
  abspath cwd (posix_join (posix_join (dirname file) dotdot) dotdot).

(** A path component in normal form: not empty, not [.] or [..], and
    without separator. *)
Definition clean (comp : str) : bool :=
  negb (Str.eqb comp []) && negb (Str.eqb comp dot)
  && negb (Str.eqb comp dotdot)
  && forallb (fun c => negb (is_sep c)) comp.

(** The absolute path with the given components. *)
Definition path_of (comps : list str) : str :=
  flat_map (fun comp => sep :: comp) comps.

End Posixpath.

(** ** Views of a run used to state what it does and does not do *)

(** A file without its contents: name and permissions. *)
Definition erase (f : file) : file := set_data f [].

(** A tree without the contents of its files: the directory structure,
    the names and the permissions. *)
Definition skeleton (d : dir) : dir := dir_map erase d.

(** The lines a list of events prints on standard output, in order. *)
Definition printed (events : list event) : list str :=
  flat_map (fun ev => match ev with
                      | Print line => [line]
                      | Open _ _ => []
                      end) events.

(** The line the script prints for one file that it can open: a skip
    line if its bytes do not decode, a replace line if its text
    contains the search string, nothing otherwise. *)
Definition report (old : str) (e : str * file) : list str :=
  if is_candidate (f_name (snd e)) then
    match Text.read (f_data (snd e)) with
    | None => [skipped_line (fst e)]
    | Some content =>
        if Str.contains old content then [replaced_line (fst e)] else []
    end
  else [].

Example scenario_run :
  main posix (lit "/repo") scenario
  = {| r_val := scenario_after;
       r_events :=
         [Open (lit "/repo/a/Main.xaml") ModeR;
          Open (lit "/repo/a/Main.xaml") ModeW;
          Print (lit "Replaced in: /repo/a/Main.xaml");
          Open (lit "/repo/a/b/Util.cs") ModeR;
          Open (lit "/repo/a/b/Util.cs") ModeW;
          Print (lit "Replaced in: /repo/a/b/Util.cs")];
       r_exn := None |}.
Proof. vm_compute. reflexivity. Qed.

(** * Properties *)

Unset Implicit Arguments.

(** ** Strings *)

Lemma startswith_app (p t : str) : Str.startswith p (p ++ t) = true.
Proof.
  induction p as [|a p IH]; simpl; [reflexivity|].
  now rewrite N.eqb_refl, IH.
Qed.

Lemma startswith_spec (p s : str) :
  Str.startswith p s = true <-> exists t, s = p ++ t.
Proof.
  split.
  - revert s. induction p as [|a p IH]; intros s H.
    + now exists s.
    + destruct s as [|b s]; simpl in H; [discriminate|].
      apply andb_true_iff in H as [Hab H].
      apply N.eqb_eq in Hab. subst b.
      destruct (IH _ H) as [t ->]. now exists t.
  - intros [t ->]. apply startswith_app.
Qed.

Lemma str_eqb_spec (s t : str) : Str.eqb s t = true <-> s = t.
Proof.
  revert t. induction s as [|a s IH]; intros [|b t]; simpl;
    try (split; [discriminate | congruence]); [tauto|].
  rewrite andb_true_iff, N.eqb_eq, IH. split.
  - now intros [-> ->].
  - intros H. now inversion H.
Qed.

Lemma endswith_spec (suf s : str) :
  Str.endswith suf s = true <-> exists pre, s = pre ++ suf.
Proof.
  unfold Str.endswith. rewrite andb_true_iff, Nat.leb_le, str_eqb_spec.
  split.
  - intros [_ H]. exists (firstn (length s - length suf) s).
    pose proof (firstn_skipn (length s - length suf) s) as E.
    rewrite H in E. now symmetry.
  - intros [pre ->]. rewrite length_app. split; [lia|].
    replace (length pre + length suf - length suf)%nat
      with (length pre) by lia.
    now rewrite skipn_app, skipn_all, Nat.sub_diag.
Qed.

Lemma contains_of_startswith (p s : str) :
  Str.startswith p s = true -> Str.contains p s = true.
Proof. intros H. destruct s; simpl; now rewrite H. Qed.

Lemma contains_spec (p s : str) :
  Str.contains p s = true <-> exists a b, s = a ++ p ++ b.
Proof.
  split.
  - induction s as [|c s IH]; simpl; intros H.
    + rewrite orb_false_r in H. apply startswith_spec in H as [t Ht].
      now exists [], t.
    + apply orb_true_iff in H as [H|H].
      * apply startswith_spec in H as [t Ht]. now exists [], t.
      * destruct (IH H) as (a & b & ->). now exists (c :: a), b.
  - intros (a & b & ->). induction a as [|c a IH].
    + apply contains_of_startswith. exact (startswith_app p b).
    + simpl. rewrite IH. apply orb_true_r.
Qed.

Lemma contains_false (p s : str) :
  Str.contains p s = false <-> forall a b, s <> a ++ p ++ b.
Proof.
  rewrite <- not_true_iff_false, contains_spec. split.
  - intros H a b E. apply H. now exists a, b.
  - intros H (a & b & E). exact (H a b E).
Qed.

Lemma find_None (p s : str) :
  Str.find p s = None <-> Str.contains p s = false.
Proof.
  induction s as [|c s IH]; simpl.
  - destruct (Str.startswith p []); simpl; split; congruence.
  - destruct (Str.startswith p (c :: s)); simpl; [split; congruence|].
    rewrite <- IH. destruct (Str.find p s); simpl; split; congruence.
Qed.

(** [find] returns the leftmost occurrence. *)
Lemma find_Some (p s : str) (j : nat) :
  Str.find p s = Some j ->
  exists pre rest,
    s = pre ++ p ++ rest /\ length pre = j
    /\ forall a b, s = a ++ p ++ b -> (j <= length a)%nat.
Proof.
  revert j. induction s as [|c s IH]; simpl; intros j H.
  - destruct (Str.startswith p []) eqn:E; [|discriminate].
    injection H as <-. apply startswith_spec in E as [t Ht].
    exists [], t. repeat split; [exact Ht | intros; lia].
  - destruct (Str.startswith p (c :: s)) eqn:E.
    + injection H as <-. apply startswith_spec in E as [t Ht].
      exists [], t. repeat split; [exact Ht | intros; lia].
    + destruct (Str.find p s) as [k|] eqn:F; [|discriminate].
      injection H as <-.
      destruct (IH k eq_refl) as (pre & rest & -> & <- & Hmin).
      exists (c :: pre), rest. repeat split.
      intros [|c' a] b Hab.
      * simpl in Hab. rewrite Hab, startswith_app in E. discriminate.
      * injection Hab as _ Hab. apply Hmin in Hab. simpl. lia.
Qed.

(** ** The replace loop *)

Lemma find_nil_None (old : str) : old <> [] -> Str.find old [] = None.
Proof. destruct old; [congruence | reflexivity]. Qed.

(** A split at an occurrence found by [find], in terms of [firstn] and
    [skipn] as the loop uses them. *)
Lemma find_split (old s : str) (j : nat) :
  Str.find old s = Some j ->
  s = firstn j s ++ old ++ skipn (j + length old) s
  /\ length (firstn j s) = j
  /\ forall a b, s = a ++ old ++ b -> (j <= length a)%nat.
Proof.
  intros H. destruct (find_Some _ _ _ H) as (pre & rest & E & L & M).
  assert (F : firstn j s = pre).
  { rewrite E, <- L, firstn_app, firstn_all, Nat.sub_diag. simpl.
    apply app_nil_r. }
  assert (K : skipn (j + length old) s = rest).
  { rewrite E at 1. rewrite <- L, app_assoc, <- length_app.
    rewrite skipn_app, skipn_all, Nat.sub_diag. reflexivity. }
  rewrite F, K. auto.
Qed.

Lemma find_rest_shorter (old s : str) (j : nat) :
  old <> [] -> Str.find old s = Some j ->
  (length (skipn (j + length old) s) < length s)%nat.
Proof.
  intros Hne H. destruct (find_split _ _ _ H) as (E & L & _).
  rewrite E at 2. rewrite !length_app, L.
  destruct old; [congruence|]. simpl. lia.
Qed.

(** Fuel beyond the length of the text changes nothing. *)
Lemma replace_loop_fuel (old new : str) :
  old <> [] ->
  forall f1 f2 s,
    (length s <= f1)%nat -> (length s <= f2)%nat ->
    Str.replace_loop f1 old new s = Str.replace_loop f2 old new s.
Proof.
  intros Hne. induction f1 as [|f1 IH]; intros f2 s H1 H2.
  - destruct s; [|simpl in H1; lia].
    destruct f2; cbn [Str.replace_loop]; [reflexivity|].
    now rewrite find_nil_None.
  - destruct f2 as [|f2].
    + destruct s; [|simpl in H2; lia].
      cbn [Str.replace_loop]. now rewrite find_nil_None.
    + cbn [Str.replace_loop]. destruct (Str.find old s) as [j|] eqn:F; [|reflexivity].
      pose proof (find_rest_shorter _ _ _ Hne F).
      do 2 f_equal. apply IH; lia.
Qed.

(** The equation of the loop, free of fuel. *)
Lemma replace_unfold (old new s : str) :
  old <> [] ->
  Str.replace old new s
  = match Str.find old s with
    | None => s
    | Some j =>
        firstn j s ++ new
          ++ Str.replace old new (skipn (j + length old) s)
    end.
Proof.
  intros Hne. unfold Str.replace.
  destruct old as [|o old'] eqn:Eo; [congruence|]. rewrite <- Eo in *.
  clear Eo o old'. destruct s as [|c s].
  - cbn [Str.replace_loop length]. now rewrite find_nil_None.
  - change (length (c :: s)) with (S (length s)).
    cbn [Str.replace_loop].
    destruct (Str.find old (c :: s)) as [j|] eqn:F; [|reflexivity].
    pose proof (find_rest_shorter _ _ _ Hne F) as L. simpl in L.
    do 2 f_equal. apply replace_loop_fuel; [assumption| lia | lia].
Qed.

Lemma replace_absent (old new s : str) :
  old <> [] -> Str.contains old s = false -> Str.replace old new s = s.
Proof.
  intros Hne H. rewrite replace_unfold by assumption.
  apply find_None in H. now rewrite H.
Qed.

(** Strong induction on the length of the text, as the loop descends. *)
Lemma str_length_ind (P : str -> Prop) :
  (forall s, (forall t, (length t < length s)%nat -> P t) -> P s) ->
  forall s, P s.
Proof.
  intros H s. remember (length s) as n eqn:E.
  revert s E. induction n as [n IH] using lt_wf_ind.
  intros s ->. apply H. intros t L. exact (IH _ L t eq_refl).
Qed.

Lemma replace_Substituted (old new s : str) :
  old <> [] -> Substituted old new s (Str.replace old new s).
Proof.
  intros Hne. induction s as [s IH] using str_length_ind.
  rewrite replace_unfold by assumption.
  destruct (Str.find old s) as [j|] eqn:F.
  - destruct (find_split _ _ _ F) as (E & L & M).
    pose proof (find_rest_shorter _ _ _ Hne F) as Hlt.
    set (rest := skipn (j + length old) s) in *.
    rewrite E at 1. apply Subst_match.
    + rewrite <- E, L. exact M.
    + apply IH. exact Hlt.
  - apply Subst_none. apply contains_false, find_None, F.
Qed.

Lemma app_same_length {A} (a a' b b' : list A) :
  a ++ b = a' ++ b' -> length a = length a' -> a = a' /\ b = b'.
Proof.
  revert a'. induction a as [|x a IH]; intros [|y a'] E L;
    simpl in *; try discriminate; [auto|].
  injection E as -> E. injection L as L.
  destruct (IH _ E L) as [-> ->]. auto.
Qed.

Lemma Substituted_functional (old new s o1 o2 : str) :
  Substituted old new s o1 -> Substituted old new s o2 -> o1 = o2.
Proof.
  intros H1. revert o2.
  induction H1 as [s Hno | pre rest out Hmin H1 IH]; intros o2 H2.
  - inversion H2 as [? ? | pre' rest' out' ? ? E]; subst; [reflexivity|].
    exfalso. exact (Hno _ _ eq_refl).
  - inversion H2 as [? Hno | pre' rest' out' Hmin' H2' E]; subst.
    + exfalso. exact (Hno _ _ eq_refl).
    + assert (L : length pre' = length pre).
      { apply Nat.le_antisymm.
        - exact (Hmin' _ _ E).
        - exact (Hmin _ _ (eq_sym E)). }
      destruct (app_same_length _ _ _ _ E L) as [-> E'].
      apply app_inv_head in E'. subst rest'.
      f_equal. f_equal. apply IH, H2'.
Qed.

(** ** Replacements that cannot bring the search string back *)

Lemma agree_of_startswith (u v x : str) :
  Str.startswith u (v ++ x) = true -> agree u v = true.
Proof.
  revert v. induction u as [|a u IH]; intros [|b v] H; simpl in *;
    try reflexivity.
  apply andb_true_iff in H as [-> H]. simpl. exact (IH _ H).
Qed.

Lemma tails_In (s v : str) :
  In v (tails s) <-> v <> [] /\ exists a, s = a ++ v.
Proof.
  induction s as [|c s IH]; simpl.
  - split; [tauto|]. intros [Hne [a E]].
    symmetry in E. apply app_eq_nil in E as [_ E]. congruence.
  - rewrite IH. split.
    + intros [<- | [Hne [a ->]]].
      * split; [discriminate | now exists []].
      * split; [assumption | now exists (c :: a)].
    + intros [Hne [[|c' a] E]].
      * left. exact E.
      * right. injection E as _ E. split; [assumption | now exists a].
Qed.

Section NoOverlap.

Variables old new : str.
Hypothesis old_nonempty : old <> [].
Hypothesis disjoint : no_overlap old new = true.

Lemma old_tail_clash (m x : str) :
  m <> [] -> (exists l, old = l ++ m) -> Str.startswith m (new ++ x) = false.
Proof.
  intros Hne Hl. apply not_true_iff_false. intros H.
  apply agree_of_startswith in H.
  apply andb_true_iff in disjoint as [D _].
  rewrite forallb_forall in D.
  assert (I : In m (tails old)) by (apply tails_In; auto).
  apply D in I. rewrite H in I. discriminate.
Qed.

Lemma new_tail_clash (m x : str) :
  m <> [] -> (exists l, new = l ++ m) -> Str.startswith old (m ++ x) = false.
Proof.
  intros Hne Hl. apply not_true_iff_false. intros H.
  apply agree_of_startswith in H.
  apply andb_true_iff in disjoint as [_ D].
  rewrite forallb_forall in D.
  assert (I : In m (tails new)) by (apply tails_In; auto).
  apply D in I. rewrite H in I. discriminate.
Qed.

(** After the replacement the search string occurs nowhere. *)
Lemma replace_removes (s : str) :
  Str.contains old (Str.replace old new s) = false.
Proof.
  induction s as [s IH] using str_length_ind.
  rewrite replace_unfold by assumption.
  destruct (Str.find old s) as [j|] eqn:F; [|now apply find_None].
  destruct (find_split _ _ _ F) as (E & L & M).
  pose proof (find_rest_shorter _ _ _ old_nonempty F) as Hlt.
  pose proof (proj1 (contains_false _ _) (IH _ Hlt)) as IHR. clear IH.
  set (pre := firstn j s) in *.
  set (R := Str.replace old new (skipn (j + length old) s)) in *.
  set (rest := skipn (j + length old) s) in *.
  assert (early : forall a t, pre = a ++ old ++ t -> False).
  { intros a t Ep.
    assert (Hs : s = a ++ old ++ (t ++ old ++ rest)).
    { rewrite E at 1. rewrite Ep. now rewrite <- !app_assoc. }
    apply M in Hs. rewrite <- L, Ep, !length_app in Hs.
    destruct old; [congruence | simpl in Hs; lia]. }
  apply contains_false. intros a b Eab.
  apply app_eq_app in Eab as [l [[Ea Eb] | [Ea Eb]]].
  - (* the occurrence starts in the copied text *)
    apply app_eq_app in Eb as [m [[Eo Em] | [Eo Em]]].
    + (* it runs into the inserted text *)
      destruct m as [|c m].
      * rewrite app_nil_r in Eo. subst l.
        apply (early a []). now rewrite app_nil_r.
      * assert (C := old_tail_clash (c :: m) R ltac:(discriminate)
                       (ex_intro _ l Eo)).
        rewrite Em, startswith_app in C. discriminate.
    + (* it lies within the copied text *)
      subst l. exact (early _ _ Ea).
  - (* the occurrence starts at or after the inserted text *)
    apply app_eq_app in Eb as [m [[En Em] | [En Em]]].
    + (* it starts inside the inserted text *)
      destruct m as [|c m].
      * simpl in Em. apply (IHR [] b). simpl. now symmetry.
      * assert (C := new_tail_clash (c :: m) R ltac:(discriminate)
                       (ex_intro _ l En)).
        rewrite <- Em, startswith_app in C. discriminate.
    + (* it lies in the text produced by the later rounds *)
      exact (IHR _ _ Em).
Qed.

End NoOverlap.

Lemma no_overlap_main : no_overlap OLD NEW = true.
Proof. vm_compute. reflexivity. Qed.

Lemma OLD_nonempty : OLD <> [].
Proof. discriminate. Qed.

(** Without that condition a replacement can bring the search string
    back: [process_directory] called with other strings than those of
    [__main__] need not be idempotent. *)
Remark replace_can_reintroduce :
  Str.contains (lit "a") (Str.replace (lit "a") (lit "aa") (lit "a"))
  = true
  /\ Str.replace (lit "ab") (lit "b") (lit "aab") = lit "ab".
Proof. split; vm_compute; reflexivity. Qed.

(** ** UTF-8: decoding and encoding are inverse *)

(** Quotient and remainder by 64, from a decomposition. *)
Lemma divmod64 (a q r : N) :
  a = 64 * q + r -> r < 64 -> a / 64 = q /\ a mod 64 = r.
Proof.
  intros E L. split; symmetry.
  - exact (N.div_unique a 64 q r L E).
  - exact (N.mod_unique a 64 q r L E).
Qed.

Lemma div_4096 (c : N) : c / 4096 = c / 64 / 64.
Proof. now rewrite N.Div0.div_div. Qed.

Lemma div_262144 (c : N) : c / 262144 = c / 64 / 64 / 64.
Proof. now rewrite !N.Div0.div_div. Qed.

Lemma byte_of_to_N (b : byte) : Utf8.byte_of (Byte.to_N b) = b.
Proof. unfold Utf8.byte_of. now rewrite Byte.of_to_N. Qed.

Lemma to_N_byte_of (n : N) : n < 256 -> Byte.to_N (Utf8.byte_of n) = n.
Proof.
  intros H. unfold Utf8.byte_of.
  destruct (Byte.of_N n) as [b|] eqn:E.
  - now apply Byte.to_of_N.
  - apply Byte.of_N_None_iff in E. lia.
Qed.

Lemma to_N_lt (b : byte) : Byte.to_N b < 256.
Proof. pose proof (Byte.to_N_bounded b). lia. Qed.

Lemma decode_cons (b0 : byte) (t0 : list byte) :
  Utf8.decode (b0 :: t0)
  = let n0 := Byte.to_N b0 in
    if n0 <? 0x80 then option_map (cons n0) (Utf8.decode t0)
    else if n0 <? 0xC2 then None
    else if n0 <? 0xE0 then
      match t0 with
      | b1 :: t1 =>
          if Utf8.in_range 0x80 0xBF (Byte.to_N b1)
          then option_map (cons (Utf8.cp2 n0 (Byte.to_N b1))) (Utf8.decode t1)
          else None
      | _ => None
      end
    else if n0 <? 0xF0 then
      match t0 with
      | b1 :: b2 :: t2 =>
          if Utf8.in_range (Utf8.lo3 n0) (Utf8.hi3 n0) (Byte.to_N b1)
             && Utf8.in_range 0x80 0xBF (Byte.to_N b2)
          then option_map
                 (cons (Utf8.cp3 n0 (Byte.to_N b1) (Byte.to_N b2)))
                 (Utf8.decode t2)
          else None
      | _ => None
      end
    else if n0 <? 0xF5 then
      match t0 with
      | b1 :: b2 :: b3 :: t3 =>
          if Utf8.in_range (Utf8.lo4 n0) (Utf8.hi4 n0) (Byte.to_N b1)
             && Utf8.in_range 0x80 0xBF (Byte.to_N b2)
             && Utf8.in_range 0x80 0xBF (Byte.to_N b3)
          then option_map
                 (cons (Utf8.cp4 n0 (Byte.to_N b1) (Byte.to_N b2)
                          (Byte.to_N b3)))
                 (Utf8.decode t3)
          else None
      | _ => None
      end
    else None.
Proof. reflexivity. Qed.

Lemma in_range_spec (lo hi n : N) :
  Utf8.in_range lo hi n = true <-> lo <= n /\ n <= hi.
Proof.
  unfold Utf8.in_range. now rewrite andb_true_iff, !N.leb_le.
Qed.

Lemma scalar_spec (c : N) :
  Utf8.scalar c = true <-> c < 0xD800 \/ (0xDFFF < c /\ c < 0x110000).
Proof.
  unfold Utf8.scalar.
  now rewrite orb_true_iff, andb_true_iff, !N.ltb_lt.
Qed.

(** Decide the comparisons a goal branches on, keeping the branches
    the bounds at hand allow. *)
Ltac split_ltb :=
  repeat match goal with
    | |- context [?a <? ?b] =>
        destruct (N.ltb_spec a b); try (exfalso; lia)
    | |- context [?a =? ?b] =>
        destruct (N.eqb_spec a b); try (exfalso; lia)
    end.

Lemma in_range_true (lo hi n : N) :
  lo <= n -> n <= hi -> Utf8.in_range lo hi n = true.
Proof. intros. apply in_range_spec. auto. Qed.

Section Forms.

Variables n0 n1 n2 n3 : N.

Lemma lo3_hi3 : 0x80 <= Utf8.lo3 n0 /\ Utf8.hi3 n0 <= 0xBF.
Proof. unfold Utf8.lo3, Utf8.hi3. split_ltb; lia. Qed.

Lemma lo4_hi4 : 0x80 <= Utf8.lo4 n0 /\ Utf8.hi4 n0 <= 0xBF.
Proof. unfold Utf8.lo4, Utf8.hi4. split_ltb; lia. Qed.

Lemma encode_cp_2 :
  0xC2 <= n0 < 0xE0 -> 0x80 <= n1 <= 0xBF ->
  Utf8.encode_cp (Utf8.cp2 n0 n1) = [Utf8.byte_of n0; Utf8.byte_of n1]
  /\ Utf8.scalar (Utf8.cp2 n0 n1) = true.
Proof.
  intros H0 H1. unfold Utf8.encode_cp.
  destruct (divmod64 (Utf8.cp2 n0 n1) (n0 - 0xC0) (n1 - 0x80))
    as [Q R]; [unfold Utf8.cp2; lia | lia |].
  assert (B : 0x80 <= Utf8.cp2 n0 n1 < 0x800) by (unfold Utf8.cp2; lia).
  rewrite Q, R. split.
  - split_ltb. repeat f_equal; lia.
  - apply scalar_spec. lia.
Qed.

Lemma encode_cp_3 :
  0xE0 <= n0 < 0xF0 -> Utf8.lo3 n0 <= n1 <= Utf8.hi3 n0 ->
  0x80 <= n2 <= 0xBF ->
  Utf8.encode_cp (Utf8.cp3 n0 n1 n2)
  = [Utf8.byte_of n0; Utf8.byte_of n1; Utf8.byte_of n2]
  /\ Utf8.scalar (Utf8.cp3 n0 n1 n2) = true.
Proof.
  intros H0 H1 H2. pose proof lo3_hi3 as B3. unfold Utf8.encode_cp.
  assert (L : n0 = 0xE0 -> 0xA0 <= n1)
    by (intros ->; exact (proj1 H1)).
  assert (U : n0 = 0xED -> n1 <= 0x9F)
    by (intros ->; exact (proj2 H1)).
  rewrite div_4096.
  destruct (divmod64 (Utf8.cp3 n0 n1 n2)
              ((n0 - 0xE0) * 64 + (n1 - 0x80)) (n2 - 0x80))
    as [Q1 R1]; [unfold Utf8.cp3; lia | lia |].
  rewrite Q1, R1.
  destruct (divmod64 ((n0 - 0xE0) * 64 + (n1 - 0x80))
              (n0 - 0xE0) (n1 - 0x80))
    as [Q2 R2]; [lia | lia |].
  rewrite Q2, R2.
  assert (B : 0x800 <= Utf8.cp3 n0 n1 n2 < 0x10000
              /\ (Utf8.cp3 n0 n1 n2 < 0xD800
                  \/ 0xDFFF < Utf8.cp3 n0 n1 n2)).
  { clear Q1 R1 Q2 R2. unfold Utf8.cp3.
    destruct (N.eq_dec n0 0xE0) as [E|E]; [specialize (L E)|];
      (destruct (N.eq_dec n0 0xED) as [E'|E']; [specialize (U E')|]);
      lia. }
  split.
  - split_ltb. repeat f_equal; lia.
  - apply scalar_spec. lia.
Qed.

Lemma encode_cp_4 :
  0xF0 <= n0 < 0xF5 -> Utf8.lo4 n0 <= n1 <= Utf8.hi4 n0 ->
  0x80 <= n2 <= 0xBF -> 0x80 <= n3 <= 0xBF ->
  Utf8.encode_cp (Utf8.cp4 n0 n1 n2 n3)
  = [Utf8.byte_of n0; Utf8.byte_of n1; Utf8.byte_of n2; Utf8.byte_of n3]
  /\ Utf8.scalar (Utf8.cp4 n0 n1 n2 n3) = true.
Proof.
  intros H0 H1 H2 H3. pose proof lo4_hi4 as B4. unfold Utf8.encode_cp.
  assert (L : n0 = 0xF0 -> 0x90 <= n1)
    by (intros ->; exact (proj1 H1)).
  assert (U : n0 = 0xF4 -> n1 <= 0x8F)
    by (intros ->; exact (proj2 H1)).
  rewrite div_262144, div_4096.
  destruct (divmod64 (Utf8.cp4 n0 n1 n2 n3)
              ((n0 - 0xF0) * 4096 + (n1 - 0x80) * 64 + (n2 - 0x80))
              (n3 - 0x80))
    as [Q1 R1]; [unfold Utf8.cp4; lia | lia |].
  rewrite Q1, R1.
  destruct (divmod64
              ((n0 - 0xF0) * 4096 + (n1 - 0x80) * 64 + (n2 - 0x80))
              ((n0 - 0xF0) * 64 + (n1 - 0x80)) (n2 - 0x80))
    as [Q2 R2]; [lia | lia |].
  rewrite Q2, R2.
  destruct (divmod64 ((n0 - 0xF0) * 64 + (n1 - 0x80))
              (n0 - 0xF0) (n1 - 0x80))
    as [Q3 R3]; [lia | lia |].
  rewrite Q3, R3.
  assert (B : 0x10000 <= Utf8.cp4 n0 n1 n2 n3 < 0x110000).
  { clear Q1 R1 Q2 R2 Q3 R3. unfold Utf8.cp4.
    destruct (N.eq_dec n0 0xF0) as [E|E]; [specialize (L E)|];
      (destruct (N.eq_dec n0 0xF4) as [E'|E']; [specialize (U E')|]);
      lia. }
  split.
  - split_ltb. repeat f_equal; lia.
  - apply scalar_spec. lia.
Qed.

End Forms.

(** Every scalar value is the code point of exactly one form. *)
Lemma scalar_form (c : N) :
  Utf8.scalar c = true ->
  (c < 0x80 /\ Utf8.encode_cp c = [Utf8.byte_of c])
  \/ (exists n0 n1,
        c = Utf8.cp2 n0 n1 /\ 0xC2 <= n0 < 0xE0 /\ 0x80 <= n1 <= 0xBF)
  \/ (exists n0 n1 n2,
        c = Utf8.cp3 n0 n1 n2 /\ 0xE0 <= n0 < 0xF0
        /\ Utf8.lo3 n0 <= n1 <= Utf8.hi3 n0 /\ 0x80 <= n2 <= 0xBF)
  \/ (exists n0 n1 n2 n3,
        c = Utf8.cp4 n0 n1 n2 n3 /\ 0xF0 <= n0 < 0xF5
        /\ Utf8.lo4 n0 <= n1 <= Utf8.hi4 n0 /\ 0x80 <= n2 <= 0xBF
        /\ 0x80 <= n3 <= 0xBF).
Proof.
  intros S. apply scalar_spec in S.
  pose proof (N.div_mod c 64 ltac:(discriminate)) as E1.
  pose proof (N.mod_lt c 64 ltac:(discriminate)) as L1.
  pose proof (N.div_mod (c / 64) 64 ltac:(discriminate)) as E2.
  pose proof (N.mod_lt (c / 64) 64 ltac:(discriminate)) as L2.
  pose proof (N.div_mod (c / 64 / 64) 64 ltac:(discriminate)) as E3.
  pose proof (N.mod_lt (c / 64 / 64) 64 ltac:(discriminate)) as L3.
  set (r1 := c mod 64) in *. set (q1 := c / 64) in *.
  set (r2 := q1 mod 64) in *. set (q2 := q1 / 64) in *.
  set (r3 := q2 mod 64) in *. set (q3 := q2 / 64) in *.
  destruct (N.ltb_spec c 0x80) as [C1|C1].
  { left. split; [assumption|]. unfold Utf8.encode_cp.
    destruct (N.ltb_spec c 0x80); [reflexivity | lia]. }
  right. destruct (N.ltb_spec c 0x800) as [C2|C2].
  { left. exists (0xC0 + q1), (0x80 + r1). unfold Utf8.cp2. lia. }
  right. destruct (N.ltb_spec c 0x10000) as [C3|C3].
  { left. exists (0xE0 + q2), (0x80 + r2), (0x80 + r1).
    unfold Utf8.cp3, Utf8.lo3, Utf8.hi3. split_ltb; lia. }
  right. exists (0xF0 + q3), (0x80 + r3), (0x80 + r2), (0x80 + r1).
  unfold Utf8.cp4, Utf8.lo4, Utf8.hi4. split_ltb; lia.
Qed.

Section DecodeForms.

Variables n0 n1 n2 n3 : N.
Variable rest : list byte.

Lemma decode_1 :
  n0 < 0x80 ->
  Utf8.decode (Utf8.byte_of n0 :: rest)
  = option_map (cons n0) (Utf8.decode rest).
Proof.
  intros H0. rewrite decode_cons. cbv zeta.
  rewrite to_N_byte_of by lia. now split_ltb.
Qed.

Lemma decode_2 :
  0xC2 <= n0 < 0xE0 -> 0x80 <= n1 <= 0xBF ->
  Utf8.decode (Utf8.byte_of n0 :: Utf8.byte_of n1 :: rest)
  = option_map (cons (Utf8.cp2 n0 n1)) (Utf8.decode rest).
Proof.
  intros H0 H1. rewrite decode_cons. cbv zeta.
  rewrite !to_N_byte_of by lia.
  split_ltb. rewrite in_range_true by lia. reflexivity.
Qed.

Lemma decode_3 :
  0xE0 <= n0 < 0xF0 -> Utf8.lo3 n0 <= n1 <= Utf8.hi3 n0 ->
  0x80 <= n2 <= 0xBF ->
  Utf8.decode
    (Utf8.byte_of n0 :: Utf8.byte_of n1 :: Utf8.byte_of n2 :: rest)
  = option_map (cons (Utf8.cp3 n0 n1 n2)) (Utf8.decode rest).
Proof.
  intros H0 H1 H2. pose proof (lo3_hi3 n0). rewrite decode_cons. cbv zeta.
  rewrite !to_N_byte_of by lia.
  split_ltb. rewrite !in_range_true by lia. reflexivity.
Qed.

Lemma decode_4 :
  0xF0 <= n0 < 0xF5 -> Utf8.lo4 n0 <= n1 <= Utf8.hi4 n0 ->
  0x80 <= n2 <= 0xBF -> 0x80 <= n3 <= 0xBF ->
  Utf8.decode
    (Utf8.byte_of n0 :: Utf8.byte_of n1 :: Utf8.byte_of n2
       :: Utf8.byte_of n3 :: rest)
  = option_map (cons (Utf8.cp4 n0 n1 n2 n3)) (Utf8.decode rest).
Proof.
  intros H0 H1 H2 H3. pose proof (lo4_hi4 n0). rewrite decode_cons.
  cbv zeta. rewrite !to_N_byte_of by lia.
  split_ltb. rewrite !in_range_true by lia. reflexivity.
Qed.

End DecodeForms.

Lemma decode_encode_cp (c : N) (rest : list byte) :
  Utf8.scalar c = true ->
  Utf8.decode (Utf8.encode_cp c ++ rest)
  = option_map (cons c) (Utf8.decode rest).
Proof.
  intros S.
  destruct (scalar_form c S)
    as [[C E] | [(n0 & n1 & -> & H0 & H1)
       | [(n0 & n1 & n2 & -> & H0 & H1 & H2)
         | (n0 & n1 & n2 & n3 & -> & H0 & H1 & H2 & H3)]]].
  - rewrite E. now apply decode_1.
  - rewrite (proj1 (encode_cp_2 n0 n1 H0 H1)). now apply decode_2.
  - rewrite (proj1 (encode_cp_3 n0 n1 n2 H0 H1 H2)). now apply decode_3.
  - rewrite (proj1 (encode_cp_4 n0 n1 n2 n3 H0 H1 H2 H3)).
    now apply decode_4.
Qed.

(** Decoding what was encoded gives the text back. *)
Lemma decode_encode (s : str) (bs : list byte) :
  Utf8.encode s = Some bs -> Utf8.decode bs = Some s.
Proof.
  revert bs. induction s as [|c s IH]; simpl; intros bs H.
  - now injection H as <-.
  - destruct (Utf8.scalar c) eqn:S; [|discriminate].
    destruct (Utf8.encode s) as [bs'|]; [|discriminate].
    injection H as <-. rewrite decode_encode_cp by assumption.
    now rewrite (IH _ eq_refl).
Qed.

Lemma encode_cons (c : N) (s : str) (bs : list byte) :
  Utf8.scalar c = true -> Utf8.encode s = Some bs ->
  Utf8.encode (c :: s) = Some (Utf8.encode_cp c ++ bs).
Proof. intros S E. simpl. now rewrite S, E. Qed.

Lemma option_map_Some {A B} (g : A -> B) (o : option A) (y : B) :
  option_map g o = Some y -> exists x, o = Some x /\ y = g x.
Proof.
  destruct o as [x|]; simpl; [|discriminate].
  intros H. injection H as <-. now exists x.
Qed.

(** Encoding what was decoded gives the bytes back. *)
Lemma encode_decode (bs : list byte) (s : str) :
  Utf8.decode bs = Some s -> Utf8.encode s = Some bs.
Proof.
  remember (length bs) as n eqn:L. revert bs s L.
  induction n as [n IH] using lt_wf_ind. intros bs s -> H.
  destruct bs as [|b0 t0]; [now injection H as <-|].
  rewrite decode_cons in H. cbv zeta in H.
  pose proof (to_N_lt b0) as B0. set (n0 := Byte.to_N b0) in *.
  assert (E0 : Utf8.byte_of n0 = b0) by apply byte_of_to_N.
  destruct (N.ltb_spec n0 0x80) as [C1|C1].
  { apply option_map_Some in H as (s' & D & ->).
    apply (IH (length t0)) in D; [|simpl; lia|reflexivity].
    rewrite (encode_cons _ _ _ (proj2 (scalar_spec n0)
                                  ltac:(left; lia)) D).
    unfold Utf8.encode_cp. destruct (N.ltb_spec n0 0x80); [|lia].
    now rewrite E0. }
  destruct (N.ltb_spec n0 0xC2) as [C2|C2]; [discriminate|].
  destruct (N.ltb_spec n0 0xE0) as [C3|C3].
  { destruct t0 as [|b1 t1]; [discriminate|].
    destruct (Utf8.in_range 128 191 (Byte.to_N b1)) eqn:R1;
      [|discriminate].
    apply in_range_spec in R1.
    apply option_map_Some in H as (s' & D & ->).
    apply (IH (length t1)) in D; [|simpl; lia|reflexivity].
    destruct (encode_cp_2 n0 (Byte.to_N b1)) as [E S]; [lia|lia|].
    rewrite (encode_cons _ _ _ S D), E, E0, byte_of_to_N.
    reflexivity. }
  destruct (N.ltb_spec n0 0xF0) as [C4|C4].
  { destruct t0 as [|b1 [|b2 t2]]; try discriminate.
    destruct (Utf8.in_range _ _ (Byte.to_N b1)) eqn:R1;
      [|discriminate].
    destruct (Utf8.in_range 128 191 (Byte.to_N b2)) eqn:R2;
      [|discriminate].
    apply in_range_spec in R1, R2. simpl in H.
    apply option_map_Some in H as (s' & D & ->).
    apply (IH (length t2)) in D; [|simpl; lia|reflexivity].
    destruct (encode_cp_3 n0 (Byte.to_N b1) (Byte.to_N b2)) as [E S];
      [lia|lia|lia|].
    rewrite (encode_cons _ _ _ S D), E, E0, !byte_of_to_N.
    reflexivity. }
  destruct (N.ltb_spec n0 0xF5) as [C5|C5]; [|discriminate].
  destruct t0 as [|b1 [|b2 [|b3 t3]]]; try discriminate.
  destruct (Utf8.in_range _ _ (Byte.to_N b1)) eqn:R1; [|discriminate].
  destruct (Utf8.in_range 128 191 (Byte.to_N b2)) eqn:R2;
    [|discriminate].
  destruct (Utf8.in_range 128 191 (Byte.to_N b3)) eqn:R3;
    [|discriminate].
  apply in_range_spec in R1, R2, R3. simpl in H.
  apply option_map_Some in H as (s' & D & ->).
  apply (IH (length t3)) in D; [|simpl; lia|reflexivity].
  destruct (encode_cp_4 n0 (Byte.to_N b1) (Byte.to_N b2) (Byte.to_N b3))
    as [E S]; [lia|lia|lia|lia|].
  rewrite (encode_cons _ _ _ S D), E, E0, !byte_of_to_N.
  reflexivity.
Qed.

Lemma encode_Some (s : str) (bs : list byte) :
  Utf8.encode s = Some bs <->
  forallb Utf8.scalar s = true /\ bs = flat_map Utf8.encode_cp s.
Proof.
  revert bs. induction s as [|c s IH]; simpl; intros bs.
  - split; [intros H; injection H as <-; auto | intros [_ ->]; auto].
  - destruct (Utf8.scalar c); simpl; [|split; [discriminate|intros [? _]; discriminate]].
    destruct (Utf8.encode s) as [bs'|]; simpl.
    + destruct (proj1 (IH bs') eq_refl) as [F ->]. rewrite F. split.
      * intros H. injection H as <-. auto.
      * intros [_ ->]. reflexivity.
    + destruct (forallb Utf8.scalar s) eqn:F.
      * specialize (proj2 (IH _) (conj eq_refl eq_refl)). discriminate.
      * split; [discriminate|intros [? _]; discriminate].
Qed.

Lemma decode_scalar (bs : list byte) (s : str) :
  Utf8.decode bs = Some s -> forallb Utf8.scalar s = true.
Proof.
  intros H. apply encode_decode in H. now apply encode_Some in H.
Qed.

Lemma encode_scalar (s : str) :
  forallb Utf8.scalar s = true ->
  Utf8.encode s = Some (flat_map Utf8.encode_cp s).
Proof. intros H. apply encode_Some. auto. Qed.

(** ** Newline translation *)

Lemma translate_in_forallb (P : N -> bool) (s : str) :
  P Text.lf = true -> forallb P s = true ->
  forallb P (Text.translate_in s) = true.
Proof.
  intros Hlf. induction s as [s IH] using str_length_ind. intros H.
  destruct s as [|c t]; [reflexivity|].
  simpl in H. apply andb_true_iff in H as [Hc Ht]. simpl.
  destruct (c =? Text.cr).
  - simpl. rewrite Hlf. simpl. destruct t as [|d t']; [reflexivity|].
    destruct (d =? Text.lf).
    + simpl in Ht. apply andb_true_iff in Ht as [_ Ht].
      apply IH; [simpl; lia | assumption].
    + apply IH; [simpl; lia | assumption].
  - simpl. rewrite Hc. simpl. apply IH; [simpl; lia | assumption].
Qed.

Lemma translate_in_no_cr (s : str) :
  Text.no_cr (Text.translate_in s) = true.
Proof.
  unfold Text.no_cr. induction s as [s IH] using str_length_ind.
  destruct s as [|c t]; [reflexivity|]. simpl.
  destruct (N.eqb_spec c Text.cr) as [E|E].
  - simpl. destruct t as [|d t']; [reflexivity|].
    destruct (d =? Text.lf); apply IH; simpl; lia.
  - simpl. apply N.eqb_neq in E. rewrite E. simpl.
    apply IH. simpl. lia.
Qed.

Lemma translate_out_forallb (P : N -> bool) (sep : linesep) (s : str) :
  P Text.cr = true -> forallb P s = true ->
  forallb P (Text.translate_out sep s) = true.
Proof.
  intros Hcr. induction s as [|c t IH]; [reflexivity|]. simpl.
  intros H. apply andb_true_iff in H as [Hc Ht].
  destruct (N.eqb_spec c Text.lf) as [->|E].
  - destruct sep; simpl; rewrite ?Hcr, Hc; simpl; auto.
  - simpl. rewrite Hc. simpl. auto.
Qed.

(** Text without carriage returns is read back as it was written. *)
Lemma translate_in_out (sep : linesep) (s : str) :
  Text.no_cr s = true ->
  Text.translate_in (Text.translate_out sep s) = s.
Proof.
  unfold Text.no_cr. induction s as [|c t IH]; [reflexivity|]. simpl.
  intros H. apply andb_true_iff in H as [Hc Ht].
  apply negb_true_iff in Hc. specialize (IH Ht).
  destruct (N.eqb_spec c Text.lf) as [->|E].
  - destruct sep; simpl; now rewrite IH.
  - simpl. now rewrite Hc, IH.
Qed.

(** On a platform whose separator is the line feed, writing
    translates nothing. *)
Lemma translate_out_LF (s : str) : Text.translate_out LF s = s.
Proof.
  induction s as [|c t IH]; [reflexivity|]. simpl. rewrite IH.
  destruct (N.eqb_spec c Text.lf) as [->|E]; reflexivity.
Qed.

Lemma translate_in_id (s : str) :
  Text.no_cr s = true -> Text.translate_in s = s.
Proof.
  unfold Text.no_cr. induction s as [|c t IH]; [reflexivity|]. simpl.
  intros H. apply andb_true_iff in H as [Hc Ht].
  apply negb_true_iff in Hc. now rewrite Hc, IH.
Qed.

(** ** What replacement preserves *)

Lemma forallb_firstn_skipn {A} (P : A -> bool) (n : nat) (l : list A) :
  forallb P l = true ->
  forallb P (firstn n l) = true /\ forallb P (skipn n l) = true.
Proof.
  intros H. rewrite <- (firstn_skipn n l), forallb_app in H.
  now apply andb_true_iff in H.
Qed.

Lemma replace_forallb (P : N -> bool) (old new s : str) :
  forallb P new = true -> forallb P s = true ->
  forallb P (Str.replace old new s) = true.
Proof.
  intros Hn. destruct old as [|o old'] eqn:Eo.
  - unfold Str.replace. intros Hs. rewrite forallb_app, Hn. simpl.
    induction s as [|c t IH]; [reflexivity|]. simpl in *.
    apply andb_true_iff in Hs as [Hc Ht].
    rewrite Hc, forallb_app, Hn. simpl. auto.
  - rewrite <- Eo. assert (Hne : old <> []) by (subst; discriminate).
    clear Eo. induction s as [s IH] using str_length_ind. intros Hs.
    rewrite replace_unfold by assumption.
    destruct (Str.find old s) as [j|] eqn:F; [|assumption].
    destruct (forallb_firstn_skipn P j s Hs) as [Hf _].
    destruct (forallb_firstn_skipn P (j + length old) s Hs) as [_ Hk].
    rewrite !forallb_app, Hn, Hf. simpl.
    apply IH; [now apply find_rest_shorter | assumption].
Qed.

(** ** Loops *)

Lemma for_each_cons {A} (body : A -> res A) (x : A) (l : list A) :
  for_each body (x :: l) = and_then cons (body x) l (for_each body).
Proof. reflexivity. Qed.

Lemma for_each_app {A} (body : A -> res A) (l1 l2 : list A) :
  for_each body (l1 ++ l2)
  = and_then (@app A) (for_each body l1) l2 (for_each body).
Proof.
  induction l1 as [|x l1 IH]; simpl.
  - unfold and_then. simpl. now destruct (for_each body l2).
  - unfold and_then in *. destruct (r_exn (body x)); simpl; [reflexivity|].
    rewrite IH. destruct (r_exn (for_each body l1)); simpl.
    + reflexivity.
    + now rewrite app_assoc.
Qed.

Lemma and_then_map {A B C A' B' C'}
    (mk : A -> B -> C) (mk' : A' -> B' -> C')
    (ga : A -> A') (gb : B -> B') (gc : C -> C')
    (ra : res A) (b : B) (k : B -> res B) (k' : B' -> res B') :
  (forall a b, gc (mk a b) = mk' (ga a) (gb b)) ->
  res_map gb (k b) = k' (gb b) ->
  res_map gc (and_then mk ra b k)
  = and_then mk' (res_map ga ra) (gb b) k'.
Proof.
  intros Hmk Hk. unfold and_then, res_map in *. simpl.
  destruct (r_exn ra); simpl; rewrite Hmk; [reflexivity|].
  rewrite <- Hk. reflexivity.
Qed.

(** A loop whose bodies all complete is a map. *)
Lemma for_each_complete {A} (body : A -> res A) (l : list A) :
  Forall (fun x => r_exn (body x) = None) l ->
  for_each body l
  = {| r_val := map (fun x => r_val (body x)) l;
       r_events := flat_map (fun x => r_events (body x)) l;
       r_exn := None |}.
Proof.
  induction 1 as [|x l Hx Hl IH]; [reflexivity|].
  simpl. now rewrite Hx, IH.
Qed.

Lemma for_each_exn_None {A} (body : A -> res A) (l : list A) :
  r_exn (for_each body l) = None <->
  Forall (fun x => r_exn (body x) = None) l.
Proof.
  split.
  - induction l as [|x l IH]; simpl; [constructor|].
    destruct (r_exn (body x)) eqn:E; simpl; [discriminate|].
    intros H. constructor; auto.
  - intros H. now rewrite for_each_complete.
Qed.


(** Whatever happens, an element of the list is either left as it was
    or replaced by what its body makes of it. *)
Lemma for_each_nth {A} (body : A -> res A) (l : list A) (i : nat) (x : A) :
  nth_error l i = Some x ->
  nth_error (r_val (for_each body l)) i = Some x
  \/ nth_error (r_val (for_each body l)) i = Some (r_val (body x)).
Proof.
  revert i. induction l as [|y l IH]; intros [|i] H; simpl in *;
    try discriminate.
  - injection H as ->. destruct (r_exn (body x)); simpl; auto.
  - destruct (r_exn (body y)); simpl; auto.
Qed.

Lemma for_each_events_In {A} (body : A -> res A) (l : list A)
    (ev : event) :
  In ev (r_events (for_each body l)) ->
  exists x, In x l /\ In ev (r_events (body x)).
Proof.
  induction l as [|y l IH]; simpl; [tauto|].
  destruct (r_exn (body y)); simpl.
  - intros H. exists y. auto.
  - rewrite in_app_iff. intros [H|H].
    + exists y. auto.
    + destruct (IH H) as (x & I & J). exists x. auto.
Qed.

(** ** One file *)

Section OneFile.

Variable os : platform.
Variables old new : str.

Lemma print_line_val (line : str) (f : file) (done : list event) :
  r_val (print_line os line f done) = f.
Proof. unfold print_line. now destruct (os_stdout_accepts os line). Qed.

(** The file a visit leaves, whatever the path and whether or not the
    lines can be printed. *)
Lemma rif_val (p : str) (f : file) :
  r_val (replace_in_file os p old new f)
  = if f_readable f then
      match Text.read (f_data f) with
      | None => f
      | Some content =>
          if Str.contains old content then
            if f_writable f then
              match Text.write os (Str.replace old new content) with
              | Some bytes => set_data f bytes
              | None => set_data f []
              end
            else f
          else f
      end
    else f.
Proof.
  unfold replace_in_file.
  destruct (f_readable f); simpl; [|reflexivity].
  destruct (Text.read (f_data f)) as [content|];
    [|apply print_line_val].
  destruct (Str.contains old content); [|reflexivity].
  destruct (f_writable f); simpl; [|reflexivity].
  destruct (Text.write os (Str.replace old new content));
    [apply print_line_val | reflexivity].
Qed.

Lemma replace_in_file_name (p : str) (f : file) :
  f_name (r_val (replace_in_file os p old new f)) = f_name f.
Proof.
  rewrite rif_val.
  destruct (f_readable f); [|reflexivity].
  destruct (Text.read (f_data f)) as [content|]; [|reflexivity].
  destruct (Str.contains old content); [|reflexivity].
  destruct (f_writable f); [|reflexivity].
  destruct (Text.write os (Str.replace old new content)); reflexivity.
Qed.

(** The path a file is opened under shows in the events and in the
    exception only. *)
Lemma replace_in_file_path (p q : str) (f : file) :
  r_val (replace_in_file os p old new f)
  = r_val (replace_in_file os q old new f).
Proof. now rewrite !rif_val. Qed.

Lemma visit_entry_val (p : str) (f : file) :
  r_val (visit_entry os old new (p, f)) = (p, file_after os old new f).
Proof.
  unfold visit_entry, file_after. simpl.
  destruct (is_candidate (f_name f)); simpl; [|reflexivity].
  f_equal. apply replace_in_file_path.
Qed.

End OneFile.

(** ** The traversal, file by file *)

Lemma dir_induction (P : dir -> Prop) :
  (forall files subdirs,
      Forall (fun sub => P (snd sub)) subdirs -> P (Dir files subdirs)) ->
  forall d, P d.
Proof.
  intros H. fix IH 1. intros [files subdirs]. apply H.
  induction subdirs as [|[name d] l IHl]; constructor.
  - apply IH.
  - exact IHl.
Qed.

Section Flat.

Variable os : platform.
Variables old new : str.

Local Abbreviation tag root :=
  (fun f : file => (os_path_join os root (f_name f), f)).

Local Abbreviation below root :=
  (fun sub : str * dir =>
     files_of os (os_path_join os root (fst sub)) (snd sub)).

Lemma process_directory_Dir (root : str) (files : list file)
    (subdirs : list (str * dir)) :
  process_directory os root old new (Dir files subdirs)
  = and_then Dir
      (for_each (visit_file os root old new) files) subdirs
      (for_each
         (fun sub : str * dir =>
            res_map (pair (fst sub))
              (process_directory os (os_path_join os root (fst sub))
                 old new (snd sub)))).
Proof. reflexivity. Qed.

Lemma visit_file_entry (root : str) (f : file) :
  res_map (tag root) (visit_file os root old new f)
  = visit_entry os old new (tag root f).
Proof.
  unfold visit_file, visit_entry. simpl.
  destruct (is_candidate (f_name f)); [|reflexivity].
  unfold res_map. simpl. now rewrite replace_in_file_name.
Qed.

Lemma visit_files_flat (root : str) (files : list file) :
  res_map (map (tag root)) (for_each (visit_file os root old new) files)
  = for_each (visit_entry os old new) (map (tag root) files).
Proof.
  induction files as [|f l IH]; [reflexivity|].
  rewrite for_each_cons. simpl map. rewrite for_each_cons.
  rewrite <- visit_file_entry.
  apply and_then_map; [reflexivity | exact IH].
Qed.

(** The traversal of a tree is the loop over its files, in the order
    [files_of] lists them. *)
Theorem process_directory_flat (d : dir) (root : str) :
  res_map (files_of os root) (process_directory os root old new d)
  = for_each (visit_entry os old new) (files_of os root d).
Proof.
  revert root. induction d as [files subdirs IH] using dir_induction.
  intros root. rewrite process_directory_Dir. simpl files_of.
  rewrite for_each_app. rewrite <- visit_files_flat.
  apply and_then_map; [reflexivity|].
  induction IH as [|sub l Hsub Hl IHl]; [reflexivity|].
  rewrite for_each_cons. simpl flat_map. rewrite for_each_app.
  rewrite <- (Hsub (os_path_join os root (fst sub))).
  apply (and_then_map cons (@app _) (below root)
           (flat_map (below root)) (flat_map (below root)));
    [reflexivity | exact IHl].
Qed.

End Flat.

(** ** The cases of [replace_in_file] *)

Section Cases.

Variable os : platform.
Variables p old new : str.
Variable f : file.

Lemma rif_unreadable :
  f_readable f = false ->
  replace_in_file os p old new f
  = {| r_val := f;
       r_events := [Open p ModeR];
       r_exn := Some (PermissionError p) |}.
Proof. intros R. unfold replace_in_file. now rewrite R. Qed.

Lemma rif_undecodable :
  f_readable f = true -> Text.read (f_data f) = None ->
  os_stdout_accepts os (skipped_line p) = true ->
  replace_in_file os p old new f
  = {| r_val := f;
       r_events := [Open p ModeR; Print (skipped_line p)];
       r_exn := None |}.
Proof.
  intros R D A. unfold replace_in_file, print_line. now rewrite R, D, A.
Qed.

Lemma rif_undecodable_mute :
  f_readable f = true -> Text.read (f_data f) = None ->
  os_stdout_accepts os (skipped_line p) = false ->
  replace_in_file os p old new f
  = {| r_val := f;
       r_events := [Open p ModeR];
       r_exn := Some (StdoutError (skipped_line p)) |}.
Proof.
  intros R D A. unfold replace_in_file, print_line. now rewrite R, D, A.
Qed.

Lemma rif_absent (content : str) :
  f_readable f = true -> Text.read (f_data f) = Some content ->
  Str.contains old content = false ->
  replace_in_file os p old new f
  = {| r_val := f; r_events := [Open p ModeR]; r_exn := None |}.
Proof. intros R D C. unfold replace_in_file. now rewrite R, D, C. Qed.

Lemma rif_unwritable (content : str) :
  f_readable f = true -> Text.read (f_data f) = Some content ->
  Str.contains old content = true -> f_writable f = false ->
  replace_in_file os p old new f
  = {| r_val := f;
       r_events := [Open p ModeR; Open p ModeW];
       r_exn := Some (PermissionError p) |}.
Proof.
  intros R D C W. unfold replace_in_file. now rewrite R, D, C, W.
Qed.


Lemma rif_replaced (content : str) (bytes : list byte) :
  f_readable f = true -> Text.read (f_data f) = Some content ->
  Str.contains old content = true -> f_writable f = true ->
  Text.write os (Str.replace old new content) = Some bytes ->
  os_stdout_accepts os (replaced_line p) = true ->
  replace_in_file os p old new f
  = {| r_val := set_data f bytes;
       r_events := [Open p ModeR; Open p ModeW;
                    Print (replaced_line p)];
       r_exn := None |}.
Proof.
  intros R D C W E A. unfold replace_in_file, print_line.
  now rewrite R, D, C, W, E, A.
Qed.

Lemma rif_replaced_mute (content : str) (bytes : list byte) :
  f_readable f = true -> Text.read (f_data f) = Some content ->
  Str.contains old content = true -> f_writable f = true ->
  Text.write os (Str.replace old new content) = Some bytes ->
  os_stdout_accepts os (replaced_line p) = false ->
  replace_in_file os p old new f
  = {| r_val := set_data f bytes;
       r_events := [Open p ModeR; Open p ModeW];
       r_exn := Some (StdoutError (replaced_line p)) |}.
Proof.
  intros R D C W E A. unfold replace_in_file, print_line.
  now rewrite R, D, C, W, E, A.
Qed.

(** A visit that raises nothing read the file, printed the skip line
    if the file did not decode, and wrote the file and printed the
    replace line if the search string occurred. *)
Lemma rif_completed :
  r_exn (replace_in_file os p old new f) = None ->
  f_readable f = true
  /\ (Text.read (f_data f) = None ->
      os_stdout_accepts os (skipped_line p) = true)
  /\ forall content,
       Text.read (f_data f) = Some content ->
       Str.contains old content = true ->
       f_writable f = true
       /\ exists bytes,
            Text.write os (Str.replace old new content) = Some bytes
            /\ os_stdout_accepts os (replaced_line p) = true.
Proof.
  unfold replace_in_file, print_line.
  destruct (f_readable f); simpl; [|discriminate].
  intros H. split; [reflexivity|]. split.
  - intros D. rewrite D in H.
    destruct (os_stdout_accepts os (skipped_line p));
      [reflexivity | discriminate].
  - intros content D C. rewrite D, C in H.
    destruct (f_writable f); simpl in H; [|discriminate].
    split; [reflexivity|].
    destruct (Text.write os (Str.replace old new content))
      as [bytes|]; [|discriminate].
    exists bytes. split; [reflexivity|].
    destruct (os_stdout_accepts os (replaced_line p));
      [reflexivity | discriminate].
Qed.

End Cases.

(** ** Entries of a run *)

Section Entries.

Variable os : platform.
Variables old new root : str.
Variable d : dir.

Local Abbreviation run := (process_directory os root old new d).

Lemma run_files :
  files_of os root (r_val run)
  = r_val (for_each (visit_entry os old new) (files_of os root d)).
Proof.
  now rewrite <- process_directory_flat.
Qed.

Lemma run_events :
  r_events run
  = r_events (for_each (visit_entry os old new) (files_of os root d)).
Proof.
  now rewrite <- process_directory_flat.
Qed.

Lemma run_exn :
  r_exn run
  = r_exn (for_each (visit_entry os old new) (files_of os root d)).
Proof.
  now rewrite <- process_directory_flat.
Qed.

(** A run that completes has visited every file. *)
Lemma run_complete :
  r_exn run = None ->
  Forall (fun e => r_exn (visit_entry os old new e) = None)
    (files_of os root d)
  /\ files_of os root (r_val run)
     = map (fun e => r_val (visit_entry os old new e))
         (files_of os root d)
  /\ r_events run
     = flat_map (fun e => r_events (visit_entry os old new e))
         (files_of os root d).
Proof.
  rewrite run_exn, run_files, run_events. intros H.
  apply for_each_exn_None in H. split; [exact H|].
  now rewrite (for_each_complete _ _ H).
Qed.

Lemma run_entry_complete (i : nat) (e : str * file) :
  r_exn run = None ->
  nth_error (files_of os root d) i = Some e ->
  r_exn (visit_entry os old new e) = None
  /\ nth_error (files_of os root (r_val run)) i
     = Some (r_val (visit_entry os old new e))
  /\ forall ev, In ev (r_events (visit_entry os old new e)) ->
                In ev (r_events run).
Proof.
  intros C N. destruct (run_complete C) as (F & V & E).
  split; [|split].
  - rewrite Forall_forall in F. apply F. eapply nth_error_In, N.
  - rewrite V. now rewrite nth_error_map, N.
  - intros ev I. rewrite E. apply in_flat_map. exists e.
    split; [eapply nth_error_In, N | exact I].
Qed.

(** In any run, completed or not, a file is left as it was or as its
    visit leaves it. *)
Lemma run_entry_any (i : nat) (e : str * file) :
  nth_error (files_of os root d) i = Some e ->
  nth_error (files_of os root (r_val run)) i = Some e
  \/ nth_error (files_of os root (r_val run)) i
     = Some (r_val (visit_entry os old new e)).
Proof.
  intros N. rewrite run_files. now apply for_each_nth.
Qed.

End Entries.

(** ** Trees *)

Section Trees.

Variable os : platform.
Variables old new : str.

Lemma visit_file_val (root : str) (f : file) :
  r_val (visit_file os root old new f) = file_after os old new f.
Proof.
  unfold visit_file, file_after.
  destruct (is_candidate (f_name f)); [|reflexivity].
  apply replace_in_file_path.
Qed.

(** A completed run applies [file_after] to every file of the tree. *)
Theorem process_directory_complete (d : dir) (root : str) :
  r_exn (process_directory os root old new d) = None ->
  r_val (process_directory os root old new d)
  = dir_map (file_after os old new) d.
Proof.
  revert root. induction d as [files subdirs IH] using dir_induction.
  intros root. rewrite process_directory_Dir. unfold and_then.
  destruct (r_exn (for_each (visit_file os root old new) files)) eqn:Ef;
    simpl; [discriminate|].
  intros Es. apply for_each_exn_None in Ef, Es.
  rewrite (for_each_complete _ _ Ef), (for_each_complete _ _ Es). simpl.
  f_equal.
  - apply map_ext. intros f. apply visit_file_val.
  - apply map_ext_in. intros sub I.
    rewrite Forall_forall in IH, Es. specialize (Es _ I). simpl in *.
    now rewrite (IH _ I _ Es).
Qed.

Lemma dir_map_id (g : file -> file) (d : dir) (root : str) :
  Forall (fun e => g (snd e) = snd e) (files_of os root d) ->
  dir_map g d = d.
Proof.
  revert root. induction d as [files subdirs IH] using dir_induction.
  intros root H. simpl in *. apply Forall_app in H as [Hf Hs]. f_equal.
  - rewrite Forall_map in Hf. simpl in Hf.
    rewrite <- (map_id files) at 2. apply map_ext_Forall. exact Hf.
  - rewrite <- (map_id subdirs) at 2. apply map_ext_Forall.
    rewrite Forall_flat_map in Hs.
    rewrite Forall_forall in *. intros [name d'] I.
    specialize (IH _ I). specialize (Hs _ I). simpl in *.
    f_equal. exact (IH _ Hs).
Qed.

End Trees.

(** ** Reordering *)

Section Reordering.

Variable os : platform.

Lemma reordered_files_of (d d' : dir) :
  reordered d d' ->
  forall root, Permutation (files_of os root d) (files_of os root d').
Proof.
  intros H.
  induction H using reordered_mut with
    (P0 := fun l l' =>
             forall root,
               Permutation
                 (flat_map (fun sub : str * dir =>
                    files_of os (os_path_join os root (fst sub)) (snd sub))
                    l)
                 (flat_map (fun sub : str * dir =>
                    files_of os (os_path_join os root (fst sub)) (snd sub))
                    l')).
  - intros root. simpl. apply Permutation_app.
    + now apply Permutation_map.
    + apply IHreordered.
  - intros root. constructor.
  - intros root. simpl. apply Permutation_app; auto.
  - intros root. simpl. rewrite !app_assoc.
    apply Permutation_app_tail, Permutation_app_comm.
  - intros root. eapply Permutation_trans; eauto.
Qed.

Lemma reordered_dir_map (g : file -> file) (d d' : dir) :
  reordered d d' -> reordered (dir_map g d) (dir_map g d').
Proof.
  intros H.
  induction H using reordered_mut with
    (P0 := fun l l' =>
             reordered_subdirs
               (map (fun sub : str * dir =>
                       (fst sub, dir_map g (snd sub))) l)
               (map (fun sub : str * dir =>
                       (fst sub, dir_map g (snd sub))) l')).
  - simpl. constructor; [now apply Permutation_map | assumption].
  - constructor.
  - simpl. now constructor.
  - simpl. constructor.
  - eapply reordered_trans; eauto.
Qed.

End Reordering.

(** ** The renamer *)

Lemma visit_entry_candidate (os : platform) (old new p : str) (f : file) :
  is_candidate (f_name f) = true ->
  visit_entry os old new (p, f)
  = res_map (pair p) (replace_in_file os p old new f).
Proof. intros C. unfold visit_entry. simpl. now rewrite C. Qed.

Lemma visit_entry_other (os : platform) (old new p : str) (f : file) :
  is_candidate (f_name f) = false ->
  visit_entry os old new (p, f) = ret (p, f).
Proof. intros C. unfold visit_entry. simpl. now rewrite C. Qed.

Lemma write_decode (os : platform) (s : str) (bytes : list byte) :
  Text.write os s = Some bytes ->
  Utf8.decode bytes = Some (Text.translate_out (os_linesep os) s).
Proof. apply decode_encode. Qed.

(** The claim C1 as the specification states it fails on a file with
    a Windows line end, run on POSIX.  The UTF-8 contents [a], carriage
    return, line feed, [b] contain the search string carriage return,
    line feed, yet the run only opens the file for reading: the text
    the script tests is the text as read, in which the line end is a
    line feed.  With the search string [a] the file is rewritten, but
    not with its contents in which the occurrence is replaced: the
    carriage return is gone as well. *)
Lemma C1_counterexample :
  is_candidate (f_name two_line_file) = true
  /\ f_data two_line_file = [x61; x0d; x0a; x62]
  /\ Utf8.decode (f_data two_line_file) = Some [97; 13; 10; 98]
  /\ Str.contains [13; 10] [97; 13; 10; 98] = true
  /\ process_directory posix (lit "/repo") [13; 10] (lit "X")
       (Dir [two_line_file] [])
     = {| r_val := Dir [two_line_file] [];
          r_events := [Open (lit "/repo/Two.cs") ModeR];
          r_exn := None |}
  /\ Utf8.encode (Str.replace (lit "a") (lit "X") [97; 13; 10; 98])
     = Some [x58; x0d; x0a; x62]
  /\ r_val (process_directory posix (lit "/repo") (lit "a") (lit "X")
              (Dir [two_line_file] []))
     = Dir [{| f_name := lit "Two.cs";
               f_data := [x58; x0a; x62];
               f_readable := true;
               f_writable := true |}] [].
Proof. repeat split; vm_compute; reflexivity. Qed.

(** C1, amended.  In a run that completes, a candidate file whose
    text as read in text mode (its UTF-8 contents with carriage return,
    line feed and lone carriage return read as line feed) contains the
    search string is opened for writing and rewritten: its new bytes
    are that text with the occurrences replaced, as text-mode output
    encodes it (each line feed written as the line separator), and
    [Replaced in: <path>] is printed.  For a non-empty search string
    the replaced text is the one and only result of the left-to-right,
    non-overlapping substitution of the specification: the leftmost
    occurrence is replaced, the text before it is kept, and the
    substitution goes on after the matched region, so that inserted
    text is not scanned again.  Replacing [aa] with [b] in [aaa] gives
    [ba]. *)
Theorem C1_occurrences_replaced
    (os : platform) (root old new : str) (d : dir)
    (i : nat) (p : str) (f : file) (content : str) :
  r_exn (process_directory os root old new d) = None ->
  nth_error (files_of os root d) i = Some (p, f) ->
  is_candidate (f_name f) = true ->
  Text.read (f_data f) = Some content ->
  Str.contains old content = true ->
  (exists raw,
      Utf8.decode (f_data f) = Some raw
      /\ content = Text.translate_in raw)
  /\ (exists bytes,
        Utf8.encode
          (Text.translate_out (os_linesep os)
             (Str.replace old new content))
        = Some bytes
        /\ Utf8.decode bytes
           = Some (Text.translate_out (os_linesep os)
                     (Str.replace old new content))
        /\ nth_error
             (files_of os root
                (r_val (process_directory os root old new d))) i
           = Some (p, {| f_name := f_name f;
                         f_data := bytes;
                         f_readable := f_readable f;
                         f_writable := f_writable f |})
        /\ In (Open p ModeW)
             (r_events (process_directory os root old new d))
        /\ In (Print (lit "Replaced in: " ++ p))
             (r_events (process_directory os root old new d)))
  /\ (old <> [] ->
      forall out,
        Substituted old new content out
        <-> out = Str.replace old new content)
  /\ Str.replace (lit "aa") (lit "b") (lit "aaa") = lit "ba"
  /\ Str.replace (lit "SerialPlotDN_WPF") (lit "PowerScope")
       (lit "Title=SerialPlotDN_WPF App")
     = lit "Title=PowerScope App".
Proof.
  intros Hrun Hnth Hcand Hread Hocc.
  split; [|split; [|split; [|split]]].
  - unfold Text.read in Hread.
    apply option_map_Some in Hread as (raw & D & ->). now exists raw.
  - destruct (run_entry_complete os old new root d i (p, f) Hrun Hnth)
      as (Hx & Hv & Hev).
    rewrite visit_entry_candidate in Hx, Hv, Hev by assumption.
    simpl in Hx.
    destruct (rif_completed os p old new f Hx) as (R & _ & K).
    destruct (K content Hread Hocc) as (W & bytes & E & A).
    exists bytes. rewrite (rif_replaced os p old new f content bytes)
      in Hv, Hev by assumption.
    split; [exact E|]. split; [now apply write_decode|].
    split; [exact Hv|]. split; apply Hev; simpl; auto.
  - intros Hne out. split.
    + intros H. eapply Substituted_functional; [exact H|].
      now apply replace_Substituted.
    + intros ->. now apply replace_Substituted.
  - vm_compute. reflexivity.
  - vm_compute. reflexivity.
Qed.

Lemma C1_witness :
  nth_error
    (files_of posix (lit "/repo")
       (r_val (process_directory posix (lit "/repo") OLD NEW scenario))) 1
  = Some (lit "/repo/a/Main.xaml",
          {| f_name := lit "Main.xaml";
             f_data := list_byte_of_string "Name: PowerScope";
             f_readable := true;
             f_writable := true |}).
Proof.
  destruct (C1_occurrences_replaced posix (lit "/repo") OLD NEW scenario
              1 (lit "/repo/a/Main.xaml")
              (text_file "Main.xaml" "Name: SerialPlotDN_WPF")
              (lit "Name: SerialPlotDN_WPF")
              ltac:(vm_compute; reflexivity)
              ltac:(vm_compute; reflexivity)
              ltac:(vm_compute; reflexivity)
              ltac:(vm_compute; reflexivity)
              ltac:(vm_compute; reflexivity))
    as (_ & (bytes & E & _ & N & _) & _).
  vm_compute in E. injection E as <-. exact N.
Defined.

Lemma is_candidate_spec (name : str) :
  is_candidate name = true <->
  (exists pre, name = pre ++ lit ".xaml")
  \/ (exists pre, name = pre ++ lit ".cs").
Proof.
  unfold is_candidate. now rewrite orb_true_iff, !endswith_spec.
Qed.

(** The events a visit can perform. *)
Lemma rif_events_cases (os : platform) (p old new : str) (f : file) :
  r_events (replace_in_file os p old new f) = [Open p ModeR]
  \/ r_events (replace_in_file os p old new f)
     = [Open p ModeR; Print (skipped_line p)]
  \/ r_events (replace_in_file os p old new f)
     = [Open p ModeR; Open p ModeW]
  \/ r_events (replace_in_file os p old new f)
     = [Open p ModeR; Open p ModeW; Print (replaced_line p)].
Proof.
  unfold replace_in_file, print_line.
  destruct (f_readable f); simpl; auto.
  destruct (Text.read (f_data f)) as [content|].
  - destruct (Str.contains old content); simpl; auto.
    destruct (f_writable f); simpl; auto.
    destruct (Text.write os (Str.replace old new content)); simpl; auto.
    destruct (os_stdout_accepts os (replaced_line p)); simpl; auto.
  - destruct (os_stdout_accepts os (skipped_line p)); simpl; auto.
Qed.

(** Every visit opens its file for reading, and opens no other path. *)
Lemma rif_opens (os : platform) (p old new : str) (f : file) :
  In (Open p ModeR) (r_events (replace_in_file os p old new f)).
Proof.
  destruct (rif_events_cases os p old new f) as [E|[E|[E|E]]];
    rewrite E; simpl; auto.
Qed.

Lemma rif_open_path (os : platform) (p old new : str) (f : file)
    (q : str) (m : mode) :
  In (Open q m) (r_events (replace_in_file os p old new f)) -> q = p.
Proof.
  destruct (rif_events_cases os p old new f) as [E|[E|[E|E]]];
    rewrite E; simpl; intros H;
    repeat match type of H with
      | _ \/ _ => destruct H as [H|H]
      | False => contradiction
      | Print _ = Open _ _ => discriminate
      | Open _ _ = Open _ _ => now injection H
      end.
Qed.

Lemma visit_entry_events (os : platform) (old new : str)
    (e : str * file) :
  r_events (visit_entry os old new e)
  = if is_candidate (f_name (snd e))
    then r_events (replace_in_file os (fst e) old new (snd e))
    else [].
Proof.
  unfold visit_entry. now destruct (is_candidate (f_name (snd e))).
Qed.

(** Only paths of candidate files are ever opened, in any run. *)
Lemma run_opens_candidates (os : platform) (root old new : str)
    (d : dir) (q : str) (m : mode) :
  In (Open q m) (r_events (process_directory os root old new d)) ->
  exists g, In (q, g) (files_of os root d)
            /\ is_candidate (f_name g) = true.
Proof.
  rewrite run_events. intros H.
  apply for_each_events_In in H as ([p g] & I & J).
  rewrite visit_entry_events in J. simpl in J.
  destruct (is_candidate (f_name g)) eqn:C; [|contradiction].
  apply rif_open_path in J. subst q. now exists g.
Qed.

(** C2. Exactly the files whose name ends with [.xaml] or [.cs],
    compared case by case, are candidates.  In a run that completes,
    every file of the tree, at whatever depth, is left as the same
    per-file function [file_after] leaves it, which is how a file alone
    in the root directory is left; the events of the run are those of
    the visits of the candidate files, in traversal order, each of
    which opens its file, and nothing else is opened. *)
Theorem C2_candidates_at_any_depth
    (os : platform) (root old new : str) (d : dir) :
  r_exn (process_directory os root old new d) = None ->
  (forall name,
      is_candidate name = true <->
      (exists pre, name = pre ++ lit ".xaml")
      \/ (exists pre, name = pre ++ lit ".cs"))
  /\ is_candidate (lit "MAIN.XAML") = false
  /\ is_candidate (lit "Util.CS") = false
  /\ r_val (process_directory os root old new d)
     = dir_map (file_after os old new) d
  /\ (forall root' f,
         r_val (process_directory os root' old new (Dir [f] []))
         = Dir [file_after os old new f] [])
  /\ r_events (process_directory os root old new d)
     = flat_map
         (fun e : str * file =>
            if is_candidate (f_name (snd e))
            then r_events (replace_in_file os (fst e) old new (snd e))
            else [])
         (files_of os root d)
  /\ (forall p f,
         In (p, f) (files_of os root d) ->
         is_candidate (f_name f) = true ->
         In (Open p ModeR)
           (r_events (process_directory os root old new d)))
  /\ (forall q m,
         In (Open q m) (r_events (process_directory os root old new d)) ->
         exists g, In (q, g) (files_of os root d)
                   /\ is_candidate (f_name g) = true).
Proof.
  intros Hrun.
  assert (Hev : r_events (process_directory os root old new d)
                = flat_map
                    (fun e : str * file =>
                       if is_candidate (f_name (snd e))
                       then r_events
                              (replace_in_file os (fst e) old new (snd e))
                       else [])
                    (files_of os root d)).
  { destruct (run_complete os old new root d Hrun) as (_ & _ & E).
    rewrite E. apply flat_map_ext. intros e.
    apply visit_entry_events. }
  repeat split.
  - apply is_candidate_spec.
  - apply is_candidate_spec.
  - now apply process_directory_complete.
  - intros root' f. rewrite process_directory_Dir. unfold and_then.
    simpl. rewrite <- (visit_file_val os old new root' f).
    now destruct (r_exn (visit_file os root' old new f)).
  - exact Hev.
  - intros p f I C. rewrite Hev. apply in_flat_map.
    exists (p, f). split; [assumption|]. simpl. rewrite C.
    apply rif_opens.
  - apply run_opens_candidates.
Qed.

Lemma C2_witness :
  r_val (process_directory posix (lit "/repo") OLD NEW scenario)
  = dir_map (file_after posix OLD NEW) scenario.
Proof.
  destruct (C2_candidates_at_any_depth posix (lit "/repo") OLD NEW
              scenario ltac:(vm_compute; reflexivity))
    as (_ & _ & _ & H & _).
  exact H.
Defined.

(** A loop over two parts of which the first completes. *)
Lemma for_each_app_complete {A} (body : A -> res A) (l1 l2 : list A) :
  Forall (fun x => r_exn (body x) = None) l1 ->
  for_each body (l1 ++ l2)
  = {| r_val := map (fun x => r_val (body x)) l1
                ++ r_val (for_each body l2);
       r_events := flat_map (fun x => r_events (body x)) l1
                   ++ r_events (for_each body l2);
       r_exn := r_exn (for_each body l2) |}.
Proof.
  intros H. rewrite for_each_app, (for_each_complete _ _ H).
  reflexivity.
Qed.

(** The claim C3 as the specification states it fails when the skip
    line cannot be printed.  On POSIX with standard output in UTF-8, a
    readable candidate that is not valid UTF-8 and whose name holds a
    lone surrogate is opened, but [print] raises in the handler: no
    line is emitted, the exception ends the run, and the file that
    follows, which holds the search string, is not processed. *)
Lemma C3_counterexample :
  is_candidate (f_name unprintable_file) = true
  /\ f_readable unprintable_file = true
  /\ Utf8.decode (f_data unprintable_file) = None
  /\ process_directory posix (lit "/repo") OLD NEW unprintable_tree
     = {| r_val := unprintable_tree;
          r_events := [Open (lit "/repo/" ++ 56448 :: lit ".cs") ModeR];
          r_exn := Some (StdoutError
                           (lit "Skipped (decode error): /repo/"
                            ++ 56448 :: lit ".cs")) |}
  /\ unprintable_tree
     = Dir [unprintable_file; text_file "B.cs" "SerialPlotDN_WPF"] [].
Proof. repeat split; vm_compute; reflexivity. Qed.

(** C3, amended.  A candidate file that can be opened but is not valid
    UTF-8 is skipped, provided the line
    [Skipped (decode error): <path>] can be written to standard output:
    when the run reaches the file it opens it, prints exactly that one
    line, leaves its bytes as they were and raises nothing, and the run
    goes on with the files that follow, whose events and outcome make
    up the rest of the run. *)
Theorem C3_decode_error_skipped
    (os : platform) (root old new : str) (d : dir)
    (l1 l2 : list (str * file)) (p : str) (f : file) :
  files_of os root d = l1 ++ (p, f) :: l2 ->
  Forall (fun x => r_exn (visit_entry os old new x) = None) l1 ->
  is_candidate (f_name f) = true ->
  f_readable f = true ->
  Utf8.decode (f_data f) = None ->
  os_stdout_accepts os (lit "Skipped (decode error): " ++ p) = true ->
  replace_in_file os p old new f
  = {| r_val := f;
       r_events := [Open p ModeR;
                    Print (lit "Skipped (decode error): " ++ p)];
       r_exn := None |}
  /\ r_events (process_directory os root old new d)
     = flat_map (fun x => r_events (visit_entry os old new x)) l1
       ++ Open p ModeR
       :: Print (lit "Skipped (decode error): " ++ p)
       :: r_events (for_each (visit_entry os old new) l2)
  /\ r_exn (process_directory os root old new d)
     = r_exn (for_each (visit_entry os old new) l2)
  /\ files_of os root (r_val (process_directory os root old new d))
     = map (fun x => r_val (visit_entry os old new x)) l1
       ++ (p, f) :: r_val (for_each (visit_entry os old new) l2).
Proof.
  intros Hd H1 C R D A.
  assert (E : replace_in_file os p old new f
              = {| r_val := f;
                   r_events := [Open p ModeR; Print (skipped_line p)];
                   r_exn := None |}).
  { apply rif_undecodable; [assumption| |exact A].
    unfold Text.read. now rewrite D. }
  split; [exact E|].
  rewrite run_events, run_exn, run_files, Hd.
  rewrite (for_each_app_complete _ l1 ((p, f) :: l2) H1).
  rewrite for_each_cons, visit_entry_candidate, E by assumption.
  repeat split.
Qed.

Lemma C3_witness :
  r_events (process_directory posix (lit "/repo") OLD NEW
              (Dir [binary_file; text_file "B.cs" "SerialPlotDN_WPF"] []))
  = [Open (lit "/repo/Blob.cs") ModeR;
     Print (lit "Skipped (decode error): /repo/Blob.cs");
     Open (lit "/repo/B.cs") ModeR;
     Open (lit "/repo/B.cs") ModeW;
     Print (lit "Replaced in: /repo/B.cs")].
Proof.
  destruct (C3_decode_error_skipped posix (lit "/repo") OLD NEW
              (Dir [binary_file; text_file "B.cs" "SerialPlotDN_WPF"] [])
              []
              [(lit "/repo/B.cs", text_file "B.cs" "SerialPlotDN_WPF")]
              (lit "/repo/Blob.cs") binary_file
              ltac:(vm_compute; reflexivity)
              ltac:(constructor)
              ltac:(vm_compute; reflexivity)
              ltac:(vm_compute; reflexivity)
              ltac:(vm_compute; reflexivity)
              ltac:(vm_compute; reflexivity))
    as (_ & H & _).
  rewrite H. vm_compute. reflexivity.
Defined.

(** The claim C4 as the specification states it fails on a file with
    a Windows line end.  The decoded contents [a], carriage return,
    line feed, [b] do not contain the search string [a], line feed,
    [b]; the text as read does, and the file is rewritten and a line is
    printed for it. *)
Lemma C4_counterexample :
  is_candidate (f_name two_line_file) = true
  /\ Utf8.decode (f_data two_line_file) = Some [97; 13; 10; 98]
  /\ Str.contains [97; 10; 98] [97; 13; 10; 98] = false
  /\ f_data two_line_file = [x61; x0d; x0a; x62]
  /\ process_directory posix (lit "/repo") [97; 10; 98] (lit "X")
       (Dir [two_line_file] [])
     = {| r_val :=
            Dir [{| f_name := lit "Two.cs";
                    f_data := [x58];
                    f_readable := true;
                    f_writable := true |}] [];
          r_events :=
            [Open (lit "/repo/Two.cs") ModeR;
             Open (lit "/repo/Two.cs") ModeW;
             Print (lit "Replaced in: /repo/Two.cs")];
          r_exn := None |}.
Proof. repeat split; vm_compute; reflexivity. Qed.

(** C4, amended.  A candidate file that is read and whose text as read
    in text mode, that is the decoded contents with every line end
    turned into a line feed, does not contain the search string is not
    written and no line is printed for it: its visit only opens it for
    reading, and after the run, completed or not, the file is what it
    was.  The text as read is the decoded contents themselves when
    these hold no carriage return. *)
Theorem C4_absent_untouched
    (os : platform) (root old new : str) (d : dir)
    (i : nat) (p : str) (f : file) (content : str) :
  nth_error (files_of os root d) i = Some (p, f) ->
  is_candidate (f_name f) = true ->
  f_readable f = true ->
  Text.read (f_data f) = Some content ->
  Str.contains old content = false ->
  visit_entry os old new (p, f)
  = {| r_val := (p, f); r_events := [Open p ModeR]; r_exn := None |}
  /\ nth_error
       (files_of os root (r_val (process_directory os root old new d))) i
     = Some (p, f)
  /\ (exists raw,
         Utf8.decode (f_data f) = Some raw
         /\ content = Text.translate_in raw
         /\ (Text.no_cr raw = true -> content = raw)).
Proof.
  intros N C R D A.
  assert (E : visit_entry os old new (p, f)
              = {| r_val := (p, f);
                   r_events := [Open p ModeR];
                   r_exn := None |}).
  { rewrite visit_entry_candidate by assumption.
    now rewrite (rif_absent os p old new f content). }
  split; [exact E|]. split.
  - destruct (run_entry_any os old new root d i (p, f) N) as [H|H];
      [exact H|].
    now rewrite H, E.
  - unfold Text.read in D.
    destruct (Utf8.decode (f_data f)) as [raw|]; [|discriminate].
    simpl in D. injection D as <-. exists raw.
    split; [reflexivity|]. split; [reflexivity|].
    apply translate_in_id.
Qed.

Lemma C4_witness :
  nth_error
    (files_of posix (lit "/repo")
       (r_val (process_directory posix (lit "/repo") OLD NEW wide_tree)))
    3
  = Some (lit "/repo/y/Y.cs", text_file "Y.cs" "no match").
Proof.
  destruct (C4_absent_untouched posix (lit "/repo") OLD NEW wide_tree
              3 (lit "/repo/y/Y.cs") (text_file "Y.cs" "no match")
              (lit "no match")
              ltac:(vm_compute; reflexivity)
              ltac:(vm_compute; reflexivity)
              ltac:(vm_compute; reflexivity)
              ltac:(vm_compute; reflexivity)
              ltac:(vm_compute; reflexivity))
    as (_ & H & _).
  exact H.
Defined.

(** C5. A file whose name ends neither with [.xaml] nor with [.cs] is
    never opened and keeps its bytes: the body of the loop does nothing
    for it, after the run, completed or not, the file is what it was,
    and every path the run opens is the path of a candidate file. *)
Theorem C5_other_files_untouched
    (os : platform) (root old new : str) (d : dir)
    (i : nat) (p : str) (f : file) :
  nth_error (files_of os root d) i = Some (p, f) ->
  is_candidate (f_name f) = false ->
  (forall dirpath, visit_file os dirpath old new f = ret f)
  /\ visit_entry os old new (p, f) = ret (p, f)
  /\ nth_error
       (files_of os root (r_val (process_directory os root old new d))) i
     = Some (p, f)
  /\ (forall q m,
         In (Open q m) (r_events (process_directory os root old new d)) ->
         exists g, In (q, g) (files_of os root d)
                   /\ is_candidate (f_name g) = true).
Proof.
  intros N C. split; [|split; [|split]].
  - intros dirpath. unfold visit_file. now rewrite C.
  - now apply visit_entry_other.
  - destruct (run_entry_any os old new root d i (p, f) N) as [H|H];
      [exact H|].
    now rewrite H, visit_entry_other.
  - apply run_opens_candidates.
Qed.

Lemma C5_witness :
  nth_error
    (files_of posix (lit "/repo")
       (r_val (process_directory posix (lit "/repo") OLD NEW scenario)))
    0
  = Some (lit "/repo/readme.md", text_file "readme.md" "SerialPlotDN_WPF").
Proof.
  destruct (C5_other_files_untouched posix (lit "/repo") OLD NEW scenario
              0 (lit "/repo/readme.md")
              (text_file "readme.md" "SerialPlotDN_WPF")
              ltac:(vm_compute; reflexivity)
              ltac:(vm_compute; reflexivity))
    as (_ & _ & H & _).
  exact H.
Defined.

(** ** Running twice *)

Lemma read_facts (data : list byte) (content : str) :
  Text.read data = Some content ->
  forallb Utf8.scalar content = true /\ Text.no_cr content = true.
Proof.
  unfold Text.read. intros H.
  apply option_map_Some in H as (raw & D & ->). split.
  - apply translate_in_forallb; [reflexivity|].
    exact (decode_scalar _ _ D).
  - apply translate_in_no_cr.
Qed.

(** Text without carriage returns, once written, is read back as it
    is. *)
Lemma write_read (os : platform) (s : str) (bytes : list byte) :
  Text.no_cr s = true -> Text.write os s = Some bytes ->
  Text.read bytes = Some s.
Proof.
  intros H W. unfold Text.read.
  rewrite (write_decode os s bytes W). simpl.
  now rewrite translate_in_out.
Qed.

Lemma write_scalar (os : platform) (s : str) :
  forallb Utf8.scalar s = true ->
  exists bytes, Text.write os s = Some bytes.
Proof.
  intros H. unfold Text.write. eexists. apply encode_scalar.
  now apply translate_out_forallb.
Qed.

Lemma NEW_facts :
  forallb Utf8.scalar NEW = true /\ Text.no_cr NEW = true.
Proof. split; vm_compute; reflexivity. Qed.

Lemma file_after_name (os : platform) (old new : str) (f : file) :
  f_name (file_after os old new f) = f_name f.
Proof.
  unfold file_after. destruct (is_candidate (f_name f)); [|reflexivity].
  apply replace_in_file_name.
Qed.

(** A loop run again over what it left does nothing more and ends as
    before, when that holds of its body on every element whose visit
    is not ended by [print]; provided the loop itself was not ended by
    [print]. *)
Lemma for_each_twice {A} (body : A -> res A) (l : list A) :
  Forall (fun x =>
            (forall line, r_exn (body x) <> Some (StdoutError line)) ->
            r_val (body (r_val (body x))) = r_val (body x)
            /\ r_exn (body (r_val (body x))) = r_exn (body x)) l ->
  (forall line, r_exn (for_each body l) <> Some (StdoutError line)) ->
  r_val (for_each body (r_val (for_each body l)))
  = r_val (for_each body l)
  /\ r_exn (for_each body (r_val (for_each body l)))
     = r_exn (for_each body l).
Proof.
  induction 1 as [|x l Hx Hl IH]; [split; reflexivity|].
  simpl. destruct (r_exn (body x)) as [e|] eqn:E; simpl; intros Hno.
  - destruct Hx as [Hv He]; [exact Hno|].
    rewrite He. simpl. now rewrite Hv.
  - destruct Hx as [Hv He]; [intros line; discriminate|].
    destruct (IH Hno) as [IHv IHe].
    rewrite He. simpl. now rewrite Hv, IHv, IHe.
Qed.

Section Twice.

Variable os : platform.
Variables old new : str.
Hypothesis old_nonempty : old <> [].
Hypothesis disjoint : no_overlap old new = true.
Hypothesis new_scalar : forallb Utf8.scalar new = true.
Hypothesis new_no_cr : Text.no_cr new = true.

(** A rewritten file reads back as the replaced text, in which the
    search string no longer occurs: the next visit only opens it. *)
Lemma rewritten_is_settled (f : file) (content : str)
    (bytes : list byte) (q : str) :
  Text.read (f_data f) = Some content ->
  Text.write os (Str.replace old new content) = Some bytes ->
  f_readable f = true ->
  Text.read bytes = Some (Str.replace old new content)
  /\ Str.contains old (Str.replace old new content) = false
  /\ replace_in_file os q old new (set_data f bytes)
     = {| r_val := set_data f bytes;
          r_events := [Open q ModeR];
          r_exn := None |}.
Proof.
  intros R W Hr. destruct (read_facts _ _ R) as [S N].
  assert (N' : Text.no_cr (Str.replace old new content) = true)
    by (apply replace_forallb; assumption).
  pose proof (write_read os _ _ N' W) as R'.
  assert (C : Str.contains old (Str.replace old new content) = false)
    by now apply replace_removes.
  split; [exact R'|]. split; [exact C|].
  now apply (rif_absent os q old new (set_data f bytes)
               (Str.replace old new content)).
Qed.

Lemma replaced_text_writable (f : file) (content : str) :
  Text.read (f_data f) = Some content ->
  exists bytes, Text.write os (Str.replace old new content) = Some bytes.
Proof.
  intros D. destruct (read_facts _ _ D) as [S _].
  apply write_scalar. now apply replace_forallb.
Qed.

(** Visiting twice leaves what visiting once leaves. *)
Lemma file_after_twice (f : file) :
  file_after os old new (file_after os old new f)
  = file_after os old new f.
Proof.
  unfold file_after at 2 3.
  destruct (is_candidate (f_name f)) eqn:C;
    [|unfold file_after; now rewrite C].
  unfold file_after. rewrite replace_in_file_name, C.
  rewrite (rif_val os old new [] f).
  destruct (f_readable f) eqn:R;
    [|now rewrite rif_val, R].
  destruct (Text.read (f_data f)) as [content|] eqn:D;
    [|now rewrite rif_val, R, D].
  destruct (Str.contains old content) eqn:O;
    [|now rewrite rif_val, R, D, O].
  destruct (f_writable f) eqn:W;
    [|now rewrite rif_val, R, D, O, W].
  destruct (replaced_text_writable f content D) as [bytes B].
  rewrite B.
  destruct (rewritten_is_settled f content bytes [] D B R)
    as (_ & _ & E).
  now rewrite E.
Qed.

(** A visit that [print] did not end, done again on the file it left,
    leaves that file and ends in the same way. *)
Lemma rif_twice (p : str) (f : file) :
  (forall line,
      r_exn (replace_in_file os p old new f)
      <> Some (StdoutError line)) ->
  r_val (replace_in_file os p old new
           (r_val (replace_in_file os p old new f)))
  = r_val (replace_in_file os p old new f)
  /\ r_exn (replace_in_file os p old new
              (r_val (replace_in_file os p old new f)))
     = r_exn (replace_in_file os p old new f).
Proof.
  intros Hno.
  destruct (f_readable f) eqn:R;
    [|rewrite !(rif_unreadable os p old new f R); simpl;
      rewrite !(rif_unreadable os p old new f R); auto].
  destruct (Text.read (f_data f)) as [content|] eqn:D.
  - destruct (Str.contains old content) eqn:O;
      [|rewrite !(rif_absent os p old new f content R D O); simpl;
        rewrite !(rif_absent os p old new f content R D O); auto].
    destruct (f_writable f) eqn:W;
      [|rewrite !(rif_unwritable os p old new f content R D O W); simpl;
        rewrite !(rif_unwritable os p old new f content R D O W); auto].
    destruct (replaced_text_writable f content D) as [bytes B].
    destruct (os_stdout_accepts os (replaced_line p)) eqn:A.
    + rewrite !(rif_replaced os p old new f content bytes R D O W B A).
      simpl.
      destruct (rewritten_is_settled f content bytes p D B R)
        as (_ & _ & E).
      now rewrite E.
    + exfalso. apply (Hno (replaced_line p)).
      now rewrite (rif_replaced_mute os p old new f content bytes).
  - destruct (os_stdout_accepts os (skipped_line p)) eqn:A.
    + rewrite !(rif_undecodable os p old new f R D A). simpl.
      rewrite !(rif_undecodable os p old new f R D A). auto.
    + exfalso. apply (Hno (skipped_line p)).
      now rewrite (rif_undecodable_mute os p old new f).
Qed.

Lemma visit_file_twice (root : str) (f : file) :
  (forall line,
      r_exn (visit_file os root old new f) <> Some (StdoutError line)) ->
  r_val (visit_file os root old new
           (r_val (visit_file os root old new f)))
  = r_val (visit_file os root old new f)
  /\ r_exn (visit_file os root old new
              (r_val (visit_file os root old new f)))
     = r_exn (visit_file os root old new f).
Proof.
  unfold visit_file at 1 3 5 6 7.
  destruct (is_candidate (f_name f)) eqn:C.
  - intros Hno. unfold visit_file.
    rewrite replace_in_file_name, C. now apply rif_twice.
  - intros _. simpl. unfold visit_file. now rewrite C.
Qed.

(** A second run over the tree left by a first run that [print] did
    not end leaves that tree as it is and ends as the first run
    ended. *)
Theorem process_directory_twice (d : dir) (root : str) :
  (forall line,
      r_exn (process_directory os root old new d)
      <> Some (StdoutError line)) ->
  r_val (process_directory os root old new
           (r_val (process_directory os root old new d)))
  = r_val (process_directory os root old new d)
  /\ r_exn (process_directory os root old new
              (r_val (process_directory os root old new d)))
     = r_exn (process_directory os root old new d).
Proof.
  revert root. induction d as [files subdirs IH] using dir_induction.
  intros root.
  rewrite (process_directory_Dir os old new root files subdirs).
  set (k := for_each
              (fun sub : str * dir =>
                 res_map (pair (fst sub))
                   (process_directory os (os_path_join os root (fst sub))
                      old new (snd sub)))) in *.
  set (rf := for_each (visit_file os root old new) files) in *.
  assert (HF : (forall line, r_exn rf <> Some (StdoutError line)) ->
               r_val (for_each (visit_file os root old new) (r_val rf))
               = r_val rf
               /\ r_exn (for_each (visit_file os root old new) (r_val rf))
                  = r_exn rf).
  { apply for_each_twice. apply Forall_forall. intros f _.
    apply visit_file_twice. }
  assert (HS : (forall line, r_exn (k subdirs) <> Some (StdoutError line))
               -> r_val (k (r_val (k subdirs))) = r_val (k subdirs)
                  /\ r_exn (k (r_val (k subdirs))) = r_exn (k subdirs)).
  { apply for_each_twice. eapply Forall_impl; [|exact IH].
    intros sub H Hno. simpl in *.
    destruct (H (os_path_join os root (fst sub)) Hno) as [Hv He].
    now rewrite Hv, He. }
  unfold and_then.
  destruct (r_exn rf) as [e|] eqn:E; cbn [r_val r_exn]; intros Hno.
  - destruct HF as [Fv Fe]; [exact Hno|].
    rewrite process_directory_Dir. fold k. unfold and_then.
    rewrite Fe. cbn [r_val r_exn]. now rewrite Fv.
  - destruct HF as [Fv Fe]; [discriminate|].
    destruct (HS Hno) as [Sv Se].
    rewrite process_directory_Dir. fold k. unfold and_then.
    rewrite Fe. cbn [r_val r_exn]. now rewrite Fv, Sv, Se.
Qed.

(** After a visit that raised nothing, a second visit only opens the
    file, and prints the skip line if the file cannot be decoded; if
    the file decodes, the search string does not occur in its text. *)
Lemma revisit (e : str * file) :
  r_exn (visit_entry os old new e) = None ->
  (forall ev,
      In ev (r_events (visit_entry os old new
                         (r_val (visit_entry os old new e)))) ->
      ev = Open (fst e) ModeR \/ ev = Print (skipped_line (fst e)))
  /\ (forall content,
         is_candidate (f_name (snd e)) = true ->
         Text.read
           (f_data (snd (r_val (visit_entry os old new e))))
         = Some content ->
         Str.contains old content = false).
Proof.
  destruct e as [p f]. intros X.
  destruct (is_candidate (f_name f)) eqn:C.
  - rewrite (visit_entry_candidate os old new p f C) in *.
    simpl in *.
    set (f' := r_val (replace_in_file os p old new f)).
    assert (C' : is_candidate (f_name f') = true)
      by (unfold f'; now rewrite replace_in_file_name).
    rewrite (visit_entry_candidate os old new p f' C'). simpl.
    destruct (rif_completed os p old new f X) as (R & KS & K).
    destruct (Text.read (f_data f)) as [content|] eqn:D.
    + destruct (Str.contains old content) eqn:O.
      * destruct (K content eq_refl O) as (W & bytes & B & A).
        assert (F : f' = set_data f bytes)
          by (unfold f';
              now rewrite (rif_replaced os p old new f content bytes)).
        destruct (rewritten_is_settled f content bytes p D B R)
          as (R' & O' & E).
        rewrite F, E. simpl. split.
        -- intros ev [<-|[]]. now left.
        -- intros c _ Hc. rewrite R' in Hc. now injection Hc as <-.
      * assert (F : f' = f)
          by (unfold f'; now rewrite (rif_absent os p old new f content)).
        rewrite F, (rif_absent os p old new f content) by assumption.
        simpl. split.
        -- intros ev [<-|[]]. now left.
        -- intros c _ Hc. rewrite D in Hc. now injection Hc as <-.
    + pose proof (KS eq_refl) as A.
      assert (F : f' = f)
        by (unfold f'; now rewrite (rif_undecodable os p old new f)).
      rewrite F, (rif_undecodable os p old new f) by assumption.
      simpl. split.
      -- intros ev [<-|[<-|[]]]; auto.
      -- intros c _ Hc. rewrite D in Hc. discriminate.
  - rewrite (visit_entry_other os old new p f C). simpl.
    rewrite (visit_entry_other os old new p f C). simpl.
    split; [intros ev []|]. intros c Hc. simpl in Hc. congruence.
Qed.

End Twice.

(** The claim C6 as the specification states it fails.  With the
    search string [a] and the replacement [aa] a completed first run
    leaves a file in which the search string occurs, and the second run
    rewrites it again.  With the strings of [__main__], the reason the
    claim gives fails on a candidate that is not valid UTF-8: it is
    skipped, and after the completed run it still holds the bytes of
    the search string.  And a first run that [print] ends, after it
    rewrote a file whose name cannot be printed, leaves the files that
    follow to the second run, which rewrites them. *)
Lemma C6_counterexample :
  process_directory posix (lit "/repo") (lit "a") (lit "aa")
    (Dir [text_file "A.cs" "a"] [])
  = {| r_val := Dir [text_file "A.cs" "aa"] [];
       r_events := [Open (lit "/repo/A.cs") ModeR;
                    Open (lit "/repo/A.cs") ModeW;
                    Print (lit "Replaced in: /repo/A.cs")];
       r_exn := None |}
  /\ process_directory posix (lit "/repo") (lit "a") (lit "aa")
       (Dir [text_file "A.cs" "aa"] [])
     = {| r_val := Dir [text_file "A.cs" "aaaa"] [];
          r_events := [Open (lit "/repo/A.cs") ModeR;
                       Open (lit "/repo/A.cs") ModeW;
                       Print (lit "Replaced in: /repo/A.cs")];
          r_exn := None |}
  /\ main posix (lit "/repo") (Dir [stale_file] [])
     = {| r_val := Dir [stale_file] [];
          r_events :=
            [Open (lit "/repo/Stale.cs") ModeR;
             Print (lit "Skipped (decode error): /repo/Stale.cs")];
          r_exn := None |}
  /\ is_candidate (f_name stale_file) = true
  /\ Utf8.encode OLD = Some (list_byte_of_string "SerialPlotDN_WPF")
  /\ f_data stale_file = list_byte_of_string "SerialPlotDN_WPF" ++ [x80]
  /\ main posix (lit "/repo") unprintable_match_tree
     = {| r_val :=
            Dir [{| f_name := 56448 :: lit ".cs";
                    f_data := list_byte_of_string "PowerScope";
                    f_readable := true;
                    f_writable := true |};
                 text_file "B.cs" "SerialPlotDN_WPF"] [];
          r_events :=
            [Open (lit "/repo/" ++ 56448 :: lit ".cs") ModeR;
             Open (lit "/repo/" ++ 56448 :: lit ".cs") ModeW];
          r_exn :=
            Some (StdoutError
                    (lit "Replaced in: /repo/" ++ 56448 :: lit ".cs")) |}
  /\ main posix (lit "/repo")
       (r_val (main posix (lit "/repo") unprintable_match_tree))
     = {| r_val :=
            Dir [{| f_name := 56448 :: lit ".cs";
                    f_data := list_byte_of_string "PowerScope";
                    f_readable := true;
                    f_writable := true |};
                 text_file "B.cs" "PowerScope"] [];
          r_events :=
            [Open (lit "/repo/" ++ 56448 :: lit ".cs") ModeR;
             Open (lit "/repo/B.cs") ModeR;
             Open (lit "/repo/B.cs") ModeW;
             Print (lit "Replaced in: /repo/B.cs")];
          r_exn := None |}.
Proof. repeat split; vm_compute; reflexivity. Qed.

(** C6, amended.  For a non-empty search string that cannot overlap an
    inserted replacement ([no_overlap]) and a replacement that is
    Unicode text without carriage return, as the strings of [__main__]
    are, a second run over the tree a completed first run produced
    modifies nothing: it returns the same tree, raises nothing, and its
    only events are the openings for reading and the skip lines of the
    candidates that do not decode; no file is opened for writing and
    no [Replaced in] line is printed.  The reason is that after the
    first run the search string does not occur in the text of any
    candidate that decodes, since it never occurs in a replaced text;
    the per-file transformation applied twice is the transformation
    applied once. *)
Theorem C6_second_run_idle
    (os : platform) (root old new : str) (d : dir) :
  old <> [] ->
  no_overlap old new = true ->
  forallb Utf8.scalar new = true ->
  Text.no_cr new = true ->
  r_exn (process_directory os root old new d) = None ->
  r_val (process_directory os root old new
           (r_val (process_directory os root old new d)))
  = r_val (process_directory os root old new d)
  /\ r_exn (process_directory os root old new
              (r_val (process_directory os root old new d)))
     = None
  /\ (forall ev,
         In ev (r_events
                  (process_directory os root old new
                     (r_val (process_directory os root old new d)))) ->
         exists q,
           ev = Open q ModeR
           \/ ev = Print (lit "Skipped (decode error): " ++ q))
  /\ (forall q,
         ~ In (Open q ModeW)
             (r_events
                (process_directory os root old new
                   (r_val (process_directory os root old new d)))))
  /\ (forall q,
         ~ In (Print (lit "Replaced in: " ++ q))
             (r_events
                (process_directory os root old new
                   (r_val (process_directory os root old new d)))))
  /\ (forall i p f content,
         nth_error
           (files_of os root
              (r_val (process_directory os root old new d))) i
         = Some (p, f) ->
         is_candidate (f_name f) = true ->
         Text.read (f_data f) = Some content ->
         Str.contains old content = false)
  /\ (forall s, Str.contains old (Str.replace old new s) = false)
  /\ (forall f, file_after os old new (file_after os old new f)
                = file_after os old new f)
  /\ (OLD <> [] /\ no_overlap OLD NEW = true
      /\ forallb Utf8.scalar NEW = true /\ Text.no_cr NEW = true).
Proof.
  intros Hne Hno Hs Hc Hrun.
  set (d1 := r_val (process_directory os root old new d)) in *.
  destruct (process_directory_twice os old new Hne Hno Hs Hc d root)
    as [Tv Te].
  { intros line. rewrite Hrun. discriminate. }
  fold d1 in Tv, Te. rewrite Hrun in Te.
  destruct (run_complete os old new root d Hrun) as (F & V & _).
  fold d1 in V. rewrite Forall_forall in F.
  assert (EV : forall ev,
             In ev (r_events (process_directory os root old new d1)) ->
             exists q, ev = Open q ModeR \/ ev = Print (skipped_line q)).
  { intros ev I.
    destruct (run_complete os old new root d1 Te) as (_ & _ & E).
    rewrite E, V in I. apply in_flat_map in I as (e' & Ie & Iev).
    apply in_map_iff in Ie as (e & <- & Ie).
    destruct (revisit os old new Hne Hno Hc e (F e Ie)) as (C & _).
    exists (fst e). now apply C. }
  split; [exact Tv|]. split; [exact Te|]. split; [exact EV|].
  split; [|split; [|split; [|split; [|split]]]].
  - intros q I. destruct (EV _ I) as (q' & [H|H]); discriminate.
  - intros q I. destruct (EV _ I) as (q' & [H|H]); [discriminate|].
    injection H as H. vm_compute in H. discriminate.
  - intros i p f content N C R. rewrite V in N.
    rewrite nth_error_map in N.
    destruct (nth_error (files_of os root d) i) as [e|] eqn:Ne;
      [|discriminate].
    simpl in N. injection N as N.
    destruct (revisit os old new Hne Hno Hc e
                (F e (nth_error_In _ _ Ne))) as (_ & T).
    apply (T content).
    + destruct e as [p0 f0]. rewrite visit_entry_val in N.
      injection N as _ N. simpl.
      rewrite <- (file_after_name os old new f0), N. exact C.
    + rewrite N. exact R.
  - intros s. now apply replace_removes.
  - now apply file_after_twice.
  - split; [exact OLD_nonempty|]. split; [exact no_overlap_main|].
    exact NEW_facts.
Qed.

Lemma C6_witness :
  r_val (main posix (lit "/repo") scenario_after) = scenario_after
  /\ forall q,
       ~ In (Open q ModeW)
           (r_events (main posix (lit "/repo") scenario_after)).
Proof.
  destruct (C6_second_run_idle posix (lit "/repo") OLD NEW scenario
              ltac:(discriminate)
              ltac:(vm_compute; reflexivity)
              ltac:(vm_compute; reflexivity)
              ltac:(vm_compute; reflexivity)
              ltac:(vm_compute; reflexivity))
    as (A & _ & _ & B & _).
  split; [exact A | exact B].
Defined.

(** ** Errors *)




(** ** Enumeration order *)

Lemma files_of_dir_map (os : platform) (g : file -> file) (d : dir)
    (root : str) :
  (forall f, f_name (g f) = f_name f) ->
  files_of os root (dir_map g d)
  = map (fun e : str * file => (fst e, g (snd e))) (files_of os root d).
Proof.
  intros Hg. revert root.
  induction d as [files subdirs IH] using dir_induction. intros root.
  simpl. rewrite map_app. f_equal.
  - rewrite !map_map. apply map_ext. intros f. simpl. now rewrite Hg.
  - induction IH as [|sub l Hsub Hl IHl]; [reflexivity|].
    simpl. rewrite map_app, Hsub. f_equal. exact IHl.
Qed.

(** C8. If a run over a tree completes, the run over the same tree
    enumerated in any other order completes too, and the two resulting
    trees hold the same files with the same contents: they are
    reorderings of each other, and the files under their paths are the
    same up to order.  Each file is visited once and its final content
    depends on its own initial content only. *)
Theorem C8_order_independent
    (os : platform) (root old new : str) (d d' : dir) :
  reordered d d' ->
  r_exn (process_directory os root old new d) = None ->
  r_exn (process_directory os root old new d') = None
  /\ reordered (r_val (process_directory os root old new d))
       (r_val (process_directory os root old new d'))
  /\ Permutation
       (files_of os root (r_val (process_directory os root old new d)))
       (files_of os root (r_val (process_directory os root old new d')))
  /\ files_of os root (r_val (process_directory os root old new d))
     = map (fun e : str * file =>
              (fst e, file_after os old new (snd e)))
         (files_of os root d)
  /\ files_of os root (r_val (process_directory os root old new d'))
     = map (fun e : str * file =>
              (fst e, file_after os old new (snd e)))
         (files_of os root d').
Proof.
  intros Hre Hrun.
  assert (Hrun' : r_exn (process_directory os root old new d') = None).
  { rewrite run_exn in *. apply for_each_exn_None.
    apply for_each_exn_None in Hrun.
    eapply Permutation_Forall; [|exact Hrun].
    now apply reordered_files_of. }
  rewrite (process_directory_complete os old new d root Hrun).
  rewrite (process_directory_complete os old new d' root Hrun').
  split; [exact Hrun'|]. split; [now apply reordered_dir_map|].
  split; [apply reordered_files_of; now apply reordered_dir_map|].
  split; apply files_of_dir_map; intros f; apply file_after_name.
Qed.

Lemma C8_witness :
  reordered
    (r_val (process_directory posix (lit "/repo") OLD NEW wide_tree))
    (r_val (process_directory posix (lit "/repo") OLD NEW
              wide_tree_reordered)).
Proof.
  destruct (C8_order_independent posix (lit "/repo") OLD NEW
              wide_tree wide_tree_reordered
              ltac:(apply reordered_dir;
                    [apply perm_swap | apply reordered_swap])
              ltac:(vm_compute; reflexivity))
    as (_ & H & _).
  exact H.
Defined.

(** ** Degenerate search strings *)

Lemma replace_same (x s : str) : Str.replace x x s = s.
Proof.
  destruct x as [|c x'] eqn:Ex.
  - unfold Str.replace. simpl.
    induction s as [|a s IH]; [reflexivity|]. simpl. now rewrite IH.
  - rewrite <- Ex. assert (Hne : x <> []) by (subst; discriminate).
    clear Ex. induction s as [s IH] using str_length_ind.
    rewrite replace_unfold by assumption.
    destruct (Str.find x s) as [j|] eqn:F; [|reflexivity].
    rewrite IH by now apply find_rest_shorter.
    symmetry. apply (find_split _ _ _ F).
Qed.

Lemma contains_nil (s : str) : Str.contains [] s = true.
Proof. now destruct s. Qed.

Lemma replace_nil (new s : str) :
  Str.replace [] new s = interleaved new s.
Proof.
  unfold Str.replace, interleaved.
  induction s as [|c s IH]; simpl.
  - now rewrite app_nil_r.
  - rewrite <- !app_assoc. simpl. now rewrite IH.
Qed.

(** The claim C9 as the specification states it fails on a file with
    a Windows line end, run on POSIX: the search string [X] equals the
    replacement and occurs, the file is rewritten and the line is
    printed, but the carriage return is gone. *)
Lemma C9_counterexample :
  is_candidate (f_name crlf_file) = true
  /\ Text.read (f_data crlf_file) = Some [88; 10]
  /\ Str.contains (lit "X") [88; 10] = true
  /\ r_exn (replace_in_file posix (lit "/repo/Crlf.cs")
              (lit "X") (lit "X") crlf_file) = None
  /\ In (Print (lit "Replaced in: /repo/Crlf.cs"))
       (r_events (replace_in_file posix (lit "/repo/Crlf.cs")
                    (lit "X") (lit "X") crlf_file))
  /\ f_data crlf_file = [x58; x0d; x0a]
  /\ f_data (r_val (replace_in_file posix (lit "/repo/Crlf.cs")
                      (lit "X") (lit "X") crlf_file))
     = [x58; x0a]
  /\ f_data (r_val (replace_in_file posix (lit "/repo/Crlf.cs")
                      (lit "X") (lit "X") crlf_file))
     <> f_data crlf_file.
Proof.
  repeat split; try (vm_compute; reflexivity).
  - vm_compute. auto.
  - vm_compute. discriminate.
Qed.

(** C9, amended.  When the search string equals the replacement and
    occurs in the text of a candidate file, a run that completes still
    opens the file for writing and prints [Replaced in: <path>]; the
    replaced text is the text that was read, and the file is rewritten
    with that text as text-mode output encodes it.  The new bytes are
    the old ones exactly when newline translation, on reading and then
    on writing, gives the decoded text back; it does on a platform
    whose line separator is the line feed when the text has no
    carriage return. *)
Theorem C9_same_string_rewritten
    (os : platform) (root x : str) (d : dir)
    (i : nat) (p : str) (f : file) (content : str) :
  r_exn (process_directory os root x x d) = None ->
  nth_error (files_of os root d) i = Some (p, f) ->
  is_candidate (f_name f) = true ->
  Text.read (f_data f) = Some content ->
  Str.contains x content = true ->
  Str.replace x x content = content
  /\ exists bytes,
       Text.write os content = Some bytes
       /\ nth_error
            (files_of os root (r_val (process_directory os root x x d))) i
          = Some (p, set_data f bytes)
       /\ In (Open p ModeW) (r_events (process_directory os root x x d))
       /\ In (Print (replaced_line p))
            (r_events (process_directory os root x x d))
       /\ (forall raw,
              Utf8.decode (f_data f) = Some raw ->
              (bytes = f_data f <->
               Text.translate_out (os_linesep os) (Text.translate_in raw)
               = raw)
              /\ (os_linesep os = LF -> Text.no_cr raw = true ->
                  bytes = f_data f)).
Proof.
  intros Hrun Hnth Hcand Hread Hocc.
  split; [apply replace_same|].
  destruct (run_entry_complete os x x root d i (p, f) Hrun Hnth)
    as (Hx & Hv & Hev).
  rewrite visit_entry_candidate in Hx, Hv, Hev by assumption.
  simpl in Hx.
  destruct (rif_completed os p x x f Hx) as (R & _ & K).
  destruct (K content Hread Hocc) as (W & bytes & E & A).
  rewrite (rif_replaced os p x x f content bytes) in Hv, Hev
    by assumption.
  rewrite replace_same in E.
  exists bytes. split; [exact E|]. split; [exact Hv|].
  split; [apply Hev; simpl; auto|]. split; [apply Hev; simpl; auto|].
  intros raw D.
  assert (C : content = Text.translate_in raw).
  { unfold Text.read in Hread. rewrite D in Hread. simpl in Hread.
    now injection Hread. }
  assert (I : bytes = f_data f <->
              Text.translate_out (os_linesep os) (Text.translate_in raw)
              = raw).
  { pose proof (write_decode os content bytes E) as D'. split.
    - intros ->. rewrite D in D'. rewrite <- C. now injection D'.
    - intros T. unfold Text.write in E. rewrite C, T in E.
      rewrite (encode_decode _ _ D) in E. now injection E. }
  split; [exact I|]. intros L N. apply I.
  now rewrite L, translate_out_LF, translate_in_id.
Qed.

Lemma C9_witness :
  Str.replace OLD OLD (lit "Name: SerialPlotDN_WPF")
  = lit "Name: SerialPlotDN_WPF"
  /\ In (Print (replaced_line (lit "/repo/a/Main.xaml")))
       (r_events (process_directory posix (lit "/repo") OLD OLD scenario)).
Proof.
  destruct (C9_same_string_rewritten posix (lit "/repo") OLD scenario
              1 (lit "/repo/a/Main.xaml")
              (text_file "Main.xaml" "Name: SerialPlotDN_WPF")
              (lit "Name: SerialPlotDN_WPF")
              ltac:(vm_compute; reflexivity)
              ltac:(vm_compute; reflexivity)
              ltac:(vm_compute; reflexivity)
              ltac:(vm_compute; reflexivity)
              ltac:(vm_compute; reflexivity))
    as (A & bytes & _ & _ & _ & B & _).
  split; [exact A | exact B].
Defined.

(** The claim C10 as the specification states it fails.  With the
    empty search string a candidate that is not valid UTF-8 is not
    rewritten: it is skipped and keeps its bytes.  A candidate with a
    Windows line end, run on POSIX, is rewritten, but not with the
    replacement inserted before every character of its content: the
    carriage return is gone. *)
Lemma C10_counterexample :
  is_candidate (f_name binary_file) = true
  /\ is_candidate (f_name crlf_file) = true
  /\ process_directory posix (lit "/repo") [] (lit "-")
       (Dir [binary_file; crlf_file] [])
     = {| r_val :=
            Dir [binary_file;
                 {| f_name := lit "Crlf.cs";
                    f_data := [x2d; x58; x2d; x0a; x2d];
                    f_readable := true;
                    f_writable := true |}] [];
          r_events :=
            [Open (lit "/repo/Blob.cs") ModeR;
             Print (lit "Skipped (decode error): /repo/Blob.cs");
             Open (lit "/repo/Crlf.cs") ModeR;
             Open (lit "/repo/Crlf.cs") ModeW;
             Print (lit "Replaced in: /repo/Crlf.cs")];
          r_exn := None |}
  /\ Utf8.decode (f_data crlf_file) = Some [88; 13; 10]
  /\ Utf8.encode
       (flat_map (fun c => lit "-" ++ [c]) [88; 13; 10] ++ lit "-")
     = Some [x2d; x58; x2d; x0d; x2d; x0a; x2d].
Proof. repeat split; vm_compute; reflexivity. Qed.

(** C10, amended.  With the empty search string the occurrence test
    succeeds on every text.  In a run that completes, every candidate
    file that decodes as UTF-8 is rewritten: its new bytes are the
    text-mode encoding of the text as read with the replacement
    inserted before each code point and once at the end, the file is
    opened for writing and [Replaced in: <path>] is printed.  A
    candidate that does not decode is skipped and keeps its bytes. *)
Theorem C10_empty_search
    (os : platform) (root new : str) (d : dir)
    (i : nat) (p : str) (f : file) :
  r_exn (process_directory os root [] new d) = None ->
  nth_error (files_of os root d) i = Some (p, f) ->
  is_candidate (f_name f) = true ->
  (forall s, Str.contains [] s = true)
  /\ (forall content,
         Text.read (f_data f) = Some content ->
         Str.replace [] new content
         = flat_map (fun c => new ++ [c]) content ++ new
         /\ exists bytes,
              Utf8.encode
                (Text.translate_out (os_linesep os)
                   (flat_map (fun c => new ++ [c]) content ++ new))
              = Some bytes
              /\ nth_error
                   (files_of os root
                      (r_val (process_directory os root [] new d))) i
                 = Some (p, {| f_name := f_name f;
                               f_data := bytes;
                               f_readable := f_readable f;
                               f_writable := f_writable f |})
              /\ In (Open p ModeW)
                   (r_events (process_directory os root [] new d))
              /\ In (Print (lit "Replaced in: " ++ p))
                   (r_events (process_directory os root [] new d)))
  /\ (Utf8.decode (f_data f) = None ->
      replace_in_file os p [] new f
      = {| r_val := f;
           r_events :=
             [Open p ModeR; Print (lit "Skipped (decode error): " ++ p)];
           r_exn := None |}
      /\ nth_error
           (files_of os root
              (r_val (process_directory os root [] new d))) i
         = Some (p, f)).
Proof.
  intros Hrun Hnth Hcand.
  split; [exact contains_nil|].
  destruct (run_entry_complete os [] new root d i (p, f) Hrun Hnth)
    as (Hx & Hv & Hev).
  rewrite visit_entry_candidate in Hx, Hv, Hev by assumption.
  simpl in Hx.
  destruct (rif_completed os p [] new f Hx) as (R & KS & K).
  split.
  - intros content Hread. split; [apply replace_nil|].
    destruct (K content Hread (contains_nil content))
      as (W & bytes & E & A).
    rewrite (rif_replaced os p [] new f content bytes) in Hv, Hev
      by (assumption || apply contains_nil).
    rewrite replace_nil in E. exists bytes.
    split; [exact E|]. split; [exact Hv|].
    split; apply Hev; simpl; auto.
  - intros D.
    assert (D' : Text.read (f_data f) = None)
      by (unfold Text.read; now rewrite D).
    pose proof (rif_undecodable os p [] new f R D' (KS D')) as E.
    split; [exact E|]. now rewrite E in Hv.
Qed.

Lemma C10_witness :
  nth_error
    (files_of posix (lit "/repo")
       (r_val (process_directory posix (lit "/repo") [] (lit "-")
                 wide_tree))) 3
  = Some (lit "/repo/y/Y.cs",
          {| f_name := lit "Y.cs";
             f_data := list_byte_of_string "-n-o- -m-a-t-c-h-";
             f_readable := true;
             f_writable := true |}).
Proof.
  destruct (C10_empty_search posix (lit "/repo") (lit "-") wide_tree
              3 (lit "/repo/y/Y.cs") (text_file "Y.cs" "no match")
              ltac:(vm_compute; reflexivity)
              ltac:(vm_compute; reflexivity)
              ltac:(vm_compute; reflexivity))
    as (_ & H & _).
  destruct (H (lit "no match") ltac:(vm_compute; reflexivity))
    as (_ & bytes & E & N & _).
  vm_compute in E. injection E as <-. exact N.
Defined.

(** * Further properties of the renamer *)

(** ** What a run leaves alone *)

Lemma rif_erase (os : platform) (p old new : str) (f : file) :
  erase (r_val (replace_in_file os p old new f)) = erase f.
Proof.
  rewrite rif_val.
  destruct (f_readable f); [|reflexivity].
  destruct (Text.read (f_data f)) as [content|]; [|reflexivity].
  destruct (Str.contains old content); [|reflexivity].
  destruct (f_writable f); [|reflexivity].
  destruct (Text.write os (Str.replace old new content)); reflexivity.
Qed.

(** A loop keeps every view of the elements that its body keeps,
    whether it completes or not. *)
Lemma for_each_view {A B} (g : A -> B) (body : A -> res A) (l : list A) :
  Forall (fun x => g (r_val (body x)) = g x) l ->
  map g (r_val (for_each body l)) = map g l.
Proof.
  induction 1 as [|x l Hx Hl IH]; [reflexivity|]. simpl.
  destruct (r_exn (body x)); simpl; rewrite Hx; [reflexivity|].
  now rewrite IH.
Qed.

(** X1. A run, completed or not, changes nothing but the contents of
    files: the directory structure, the names and the permissions of
    the tree it leaves are those of the tree it was given, and the
    files are found under the same paths in the same order. *)
Theorem X1_structure_preserved
    (os : platform) (root old new : str) (d : dir) :
  skeleton (r_val (process_directory os root old new d)) = skeleton d
  /\ map fst
       (files_of os root (r_val (process_directory os root old new d)))
     = map fst (files_of os root d).
Proof.
  split.
  - revert root. induction d as [files subdirs IH] using dir_induction.
    intros root. rewrite process_directory_Dir. unfold skeleton in *.
    assert (Hf : map erase
                   (r_val (for_each (visit_file os root old new) files))
                 = map erase files).
    { apply for_each_view. apply Forall_forall. intros f _.
      unfold visit_file. destruct (is_candidate (f_name f));
        [apply rif_erase | reflexivity]. }
    unfold and_then.
    destruct (r_exn (for_each (visit_file os root old new) files));
      simpl; rewrite Hf; [reflexivity|]. f_equal.
    apply (for_each_view
             (fun sub : str * dir => (fst sub, dir_map erase (snd sub)))).
    eapply Forall_impl; [|exact IH]. intros sub H. simpl.
    now rewrite H.
  - rewrite run_files. apply for_each_view. apply Forall_forall.
    intros [p f] _. now rewrite visit_entry_val.
Qed.

(** ** When a file changes *)

(** A visit that changes the file has read a text that contains the
    search string and has opened the file for writing. *)
Lemma rif_changed (os : platform) (p old new : str) (f : file) :
  r_val (replace_in_file os p old new f) <> f ->
  f_readable f = true /\ f_writable f = true
  /\ exists content,
       Text.read (f_data f) = Some content
       /\ Str.contains old content = true
       /\ ((Text.write os (Str.replace old new content) = None
            /\ r_val (replace_in_file os p old new f) = set_data f [])
           \/ exists bytes,
                Text.write os (Str.replace old new content) = Some bytes
                /\ r_val (replace_in_file os p old new f)
                   = set_data f bytes).
Proof.
  rewrite rif_val.
  destruct (f_readable f); [|congruence].
  destruct (Text.read (f_data f)) as [content|]; [|congruence].
  destruct (Str.contains old content) eqn:O; [|congruence].
  destruct (f_writable f); [|congruence].
  intros _. split; [reflexivity|]. split; [reflexivity|].
  exists content. split; [reflexivity|]. split; [exact O|].
  destruct (Text.write os (Str.replace old new content)) as [bytes|].
  - right. exists bytes. split; reflexivity.
  - left. split; reflexivity.
Qed.

Lemma run_entry_changed (os : platform) (root old new : str) (d : dir)
    (i : nat) (p : str) (f f' : file) :
  nth_error (files_of os root d) i = Some (p, f) ->
  nth_error
    (files_of os root (r_val (process_directory os root old new d))) i
  = Some (p, f') ->
  f' <> f ->
  is_candidate (f_name f) = true
  /\ f' = r_val (replace_in_file os p old new f).
Proof.
  intros N N' Hd.
  destruct (run_entry_any os old new root d i (p, f) N) as [H|H];
    rewrite H in N'; injection N' as E; [congruence|].
  destruct (is_candidate (f_name f)) eqn:C.
  - rewrite visit_entry_candidate in H, E by assumption. simpl in E.
    split; [reflexivity | congruence].
  - rewrite visit_entry_other in H, E by assumption. simpl in E.
    congruence.
Qed.





(** ** Standard output *)

Lemma printed_app (a b : list event) :
  printed (a ++ b) = printed a ++ printed b.
Proof. unfold printed. apply flat_map_app. Qed.

Lemma printed_flat_map {A} (g : A -> list event) (l : list A) :
  printed (flat_map g l) = flat_map (fun x => printed (g x)) l.
Proof.
  induction l as [|x l IH]; [reflexivity|].
  simpl. now rewrite printed_app, IH.
Qed.

Lemma flat_map_ext_Forall {A B} (g h : A -> list B) (l : list A) :
  Forall (fun x => g x = h x) l -> flat_map g l = flat_map h l.
Proof.
  induction 1 as [|x l Hx Hl IH]; [reflexivity|].
  simpl. now rewrite Hx, IH.
Qed.

(** What a visit that raises nothing prints. *)
Lemma visit_entry_printed (os : platform) (old new : str)
    (e : str * file) :
  r_exn (visit_entry os old new e) = None ->
  printed (r_events (visit_entry os old new e)) = report old e.
Proof.
  destruct e as [p f]. unfold visit_entry, report. simpl.
  destruct (is_candidate (f_name f)); [|reflexivity]. simpl.
  unfold replace_in_file, print_line.
  destruct (f_readable f); simpl; [|discriminate].
  destruct (Text.read (f_data f)) as [content|].
  - destruct (Str.contains old content); [|reflexivity].
    destruct (f_writable f); simpl; [|discriminate].
    destruct (Text.write os (Str.replace old new content));
      [|discriminate].
    destruct (os_stdout_accepts os (replaced_line p));
      [reflexivity | discriminate].
  - destruct (os_stdout_accepts os (skipped_line p));
      [reflexivity | discriminate].
Qed.

(** X3. The standard output of a run that completes is, in traversal
    order, one line [Skipped (decode error): <path>] for every
    candidate file that does not decode, one line [Replaced in: <path>]
    for every candidate file whose text contains the search string,
    and nothing else. *)
Theorem X3_output_of_completed_run
    (os : platform) (root old new : str) (d : dir) :
  r_exn (process_directory os root old new d) = None ->
  printed (r_events (process_directory os root old new d))
  = flat_map (report old) (files_of os root d).
Proof.
  intros Hrun. destruct (run_complete os old new root d Hrun)
    as (F & _ & E).
  rewrite E, printed_flat_map. apply flat_map_ext_Forall.
  eapply Forall_impl; [|exact F]. intros e X.
  now apply visit_entry_printed.
Qed.

Lemma X3_witness :
  printed (r_events (process_directory posix (lit "/repo") OLD NEW
                       scenario))
  = [lit "Replaced in: /repo/a/Main.xaml";
     lit "Replaced in: /repo/a/b/Util.cs"].
Proof.
  rewrite (X3_output_of_completed_run posix (lit "/repo") OLD NEW
             scenario ltac:(vm_compute; reflexivity)).
  vm_compute. reflexivity.
Defined.

(** ** Line ends of rewritten files *)

Lemma byte_of_cr (n : N) : Utf8.byte_of n = x0d -> n = 13.
Proof.
  unfold Utf8.byte_of. destruct (Byte.of_N n) as [b|] eqn:E.
  - intros ->. apply Byte.to_of_N in E. now rewrite <- E.
  - discriminate.
Qed.

Lemma encode_cp_cr (c : N) : In x0d (Utf8.encode_cp c) -> c = 13.
Proof.
  unfold Utf8.encode_cp.
  destruct (c <? 128); [|destruct (c <? 2048); [|destruct (c <? 65536)]];
    cbn [In]; intros H;
    repeat match type of H with
      | _ \/ _ => destruct H as [H|H]
      | _ = x0d => apply byte_of_cr in H
      | False => contradiction
      end;
    try exact H;
    match type of H with
    | _ + ?q = 13 => pose proof (N.le_0_l q); lia
    end.
Qed.

Lemma encoded_no_cr (s : str) :
  Text.no_cr s = true -> ~ In x0d (flat_map Utf8.encode_cp s).
Proof.
  unfold Text.no_cr. rewrite forallb_forall. intros H I.
  apply in_flat_map in I as (c & Ic & Ix).
  apply encode_cp_cr in Ix. subst c.
  specialize (H _ Ic). discriminate.
Qed.

(** X5. On a platform whose line separator is the line feed, a file
    that a run changed holds no carriage return afterwards, provided
    the replacement string holds none: Windows line ends of a rewritten
    file become line feeds, also outside the replaced occurrences. *)
Theorem X5_rewritten_without_carriage_return
    (os : platform) (root old new : str) (d : dir)
    (i : nat) (p : str) (f f' : file) :
  os_linesep os = LF ->
  Text.no_cr new = true ->
  nth_error (files_of os root d) i = Some (p, f) ->
  nth_error
    (files_of os root (r_val (process_directory os root old new d))) i
  = Some (p, f') ->
  f' <> f ->
  ~ In x0d (f_data f').
Proof.
  intros L Hn N N' Hd.
  destruct (run_entry_changed os root old new d i p f f' N N' Hd)
    as [C E].
  rewrite E in Hd.
  destruct (rif_changed os p old new f Hd)
    as (_ & _ & content & D & _ & [[_ K] | (bytes & W & K)]);
    rewrite E, K; simpl; [tauto|].
  unfold Text.write in W. rewrite L, translate_out_LF in W.
  apply encode_Some in W as [_ ->]. apply encoded_no_cr.
  apply replace_forallb; [exact Hn|]. apply (read_facts _ _ D).
Qed.

Lemma X5_witness :
  ~ In x0d
      (f_data (r_val (replace_in_file posix (lit "/repo/Crlf.cs")
                        (lit "X") (lit "Y") crlf_file))).
Proof.
  apply (X5_rewritten_without_carriage_return posix (lit "/repo")
           (lit "X") (lit "Y") (Dir [crlf_file] []) 0
           (lit "/repo/Crlf.cs") crlf_file
           (r_val (replace_in_file posix (lit "/repo/Crlf.cs")
                     (lit "X") (lit "Y") crlf_file))
           ltac:(reflexivity)
           ltac:(vm_compute; reflexivity)
           ltac:(vm_compute; reflexivity)
           ltac:(vm_compute; reflexivity)
           ltac:(vm_compute; discriminate)).
Defined.

(** ** The codec and the replacement on their own *)

(** X6. Strict UTF-8 decoding and encoding are inverse to each other:
    bytes decode to a text exactly when that text encodes to those
    bytes, and a decoded text holds Unicode scalar values only. *)
Theorem X6_utf8_round_trip (bs : list byte) (s : str) :
  (Utf8.decode bs = Some s <-> Utf8.encode s = Some bs)
  /\ (Utf8.decode bs = Some s -> forallb Utf8.scalar s = true).
Proof.
  split; [split|].
  - apply encode_decode.
  - apply decode_encode.
  - apply decode_scalar.
Qed.

Lemma X6_witness :
  Utf8.encode [233; 8364; 128512]
  = Some [xc3; xa9; xe2; x82; xac; xf0; x9f; x98; x80].
Proof.
  apply (proj1 (proj1 (X6_utf8_round_trip
                         [xc3; xa9; xe2; x82; xac; xf0; x9f; x98; x80]
                         [233; 8364; 128512]))).
  vm_compute. reflexivity.
Defined.

(** X7. On a text in which the search string does not occur the
    replacement is the identity: the test [old in content] spares the
    write and the printed line, it does not change which text
    results. *)
Theorem X7_replace_without_occurrence (old new s : str) :
  Str.contains old s = false -> Str.replace old new s = s.
Proof.
  intros H. destruct old as [|c old'] eqn:E.
  - rewrite contains_nil in H. discriminate.
  - rewrite <- E in *. apply replace_absent; [subst; discriminate|].
    exact H.
Qed.

Lemma X7_witness :
  Str.replace OLD NEW (lit "no match") = lit "no match".
Proof.
  apply (X7_replace_without_occurrence OLD NEW (lit "no match")).
  vm_compute. reflexivity.
Defined.

(** X8. If the search string occurs in a text, the replacement string
    occurs in the replaced text. *)
Theorem X8_replacement_occurs (old new s : str) :
  Str.contains old s = true ->
  Str.contains new (Str.replace old new s) = true.
Proof.
  intros H. apply contains_spec. destruct old as [|c old'] eqn:E.
  - unfold Str.replace. now exists [], (flat_map (fun c => c :: new) s).
  - rewrite <- E in *. assert (Hne : old <> []) by (subst; discriminate).
    rewrite replace_unfold by assumption.
    destruct (Str.find old s) as [j|] eqn:F.
    + now exists (firstn j s),
        (Str.replace old new (skipn (j + length old) s)).
    + apply find_None in F. rewrite F in H. discriminate.
Qed.

Lemma X8_witness :
  Str.contains NEW (Str.replace OLD NEW (lit "Name: SerialPlotDN_WPF"))
  = true.
Proof.
  apply (X8_replacement_occurs OLD NEW (lit "Name: SerialPlotDN_WPF")).
  vm_compute. reflexivity.
Defined.

(** X9. For a non-empty search string that cannot overlap an inserted
    replacement ([no_overlap]), the search string does not occur in a
    replaced text, and replacing twice is replacing once. *)
Theorem X9_replace_idempotent (old new s : str) :
  old <> [] ->
  no_overlap old new = true ->
  Str.contains old (Str.replace old new s) = false
  /\ Str.replace old new (Str.replace old new s) = Str.replace old new s.
Proof.
  intros Hne Hno.
  assert (H : Str.contains old (Str.replace old new s) = false)
    by now apply replace_removes.
  split; [exact H|]. now apply replace_absent.
Qed.

Lemma X9_witness :
  Str.replace (lit "foo") (lit "bar")
    (Str.replace (lit "foo") (lit "bar") (lit "foofoo.foo"))
  = Str.replace (lit "foo") (lit "bar") (lit "foofoo.foo").
Proof.
  apply (X9_replace_idempotent (lit "foo") (lit "bar") (lit "foofoo.foo")).
  - discriminate.
  - vm_compute. reflexivity.
Defined.

(** X10. A file that a visit rewrote is read back, in text mode, as
    the replaced text, on any platform, provided the replacement
    string holds no carriage return. *)
Theorem X10_rewritten_text_reads_back
    (os : platform) (p old new : str) (f : file) (content : str) :
  Text.read (f_data f) = Some content ->
  Str.contains old content = true ->
  Text.no_cr new = true ->
  r_exn (replace_in_file os p old new f) = None ->
  Text.read (f_data (r_val (replace_in_file os p old new f)))
  = Some (Str.replace old new content).
Proof.
  intros D O Hn X.
  destruct (rif_completed os p old new f X) as (R & _ & K).
  destruct (K content D O) as (W & bytes & E & A).
  rewrite (rif_replaced os p old new f content bytes R D O W E A). simpl.
  apply (write_read os); [|exact E].
  apply replace_forallb; [exact Hn|]. apply (read_facts _ _ D).
Qed.

Lemma X10_witness :
  Text.read
    (f_data (r_val (replace_in_file posix (lit "/repo/Crlf.cs")
                      (lit "X") (lit "Y") crlf_file)))
  = Some (Str.replace (lit "X") (lit "Y") [88; 10]).
Proof.
  apply (X10_rewritten_text_reads_back posix (lit "/repo/Crlf.cs")
           (lit "X") (lit "Y") crlf_file [88; 10]);
    vm_compute; reflexivity.
Defined.

(** ** Running again after a run that was cut short *)



(** ** The root directory *)

Example root_dir_of_the_script :
  Posixpath.root_dir (lit "/home/me")
    (lit "/repo/View/UserControls/rename.py")
  = lit "/repo"
  /\ Posixpath.root_dir (lit "/repo/View/UserControls") (lit "rename.py")
     = lit "/repo"
  /\ Posixpath.root_dir (lit "/") (lit "/rename.py") = lit "/"
  /\ Posixpath.dirname (lit "/repo//rename.py") = lit "/repo"
  /\ Posixpath.normpath (lit "//a/./b/../c/") = lit "//a/c"
  /\ Posixpath.normpath (lit "a/../../b") = lit "../b".
Proof. repeat split; vm_compute; reflexivity. Qed.

Section PosixPaths.

Import Posixpath.

Local Abbreviation no_sep s := (forallb (fun c => negb (is_sep c)) s).

Lemma clean_facts (comp : str) :
  clean comp = true ->
  comp <> [] /\ comp <> dot /\ comp <> dotdot /\ no_sep comp = true.
Proof.
  unfold clean. rewrite !andb_true_iff, !negb_true_iff.
  intros [[[A B] C] D]. repeat split; try assumption;
    intros E; apply str_eqb_spec in E; congruence.
Qed.

Lemma split_not_nil (path : str) : split path <> [].
Proof.
  destruct path as [|c t]; simpl; [discriminate|].
  destruct (is_sep c); [discriminate|].
  destruct (split t); discriminate.
Qed.

Lemma split_app_no_sep (comp u : str) (h : str) (r : list str) :
  no_sep comp = true -> split u = h :: r ->
  split (comp ++ u) = (comp ++ h) :: r.
Proof.
  intros N E. induction comp as [|c comp IH]; [exact E|].
  simpl in N. apply andb_true_iff in N as [Nc N].
  apply negb_true_iff in Nc. simpl. now rewrite Nc, (IH N).
Qed.

Lemma split_path_of (comps : list str) :
  Forall (fun comp => no_sep comp = true) comps ->
  split (path_of comps) = [] :: comps.
Proof.
  induction 1 as [|comp comps N F IH]; [reflexivity|].
  unfold path_of. simpl. fold (path_of comps).
  replace (is_sep sep) with true by reflexivity.
  rewrite (split_app_no_sep comp (path_of comps) [] comps N IH).
  now rewrite app_nil_r.
Qed.

Lemma norm_step_clean (n : nat) (stack : list str) (comp : str) :
  clean comp = true -> norm_step n stack comp = comp :: stack.
Proof.
  intros C. destruct (clean_facts comp C) as (A & B & D & _).
  unfold norm_step.
  destruct (Str.eqb comp []) eqn:E1;
    [apply str_eqb_spec in E1; congruence|].
  destruct (Str.eqb comp dot) eqn:E2;
    [apply str_eqb_spec in E2; congruence|].
  destruct (Str.eqb comp dotdot) eqn:E3;
    [apply str_eqb_spec in E3; congruence|].
  reflexivity.
Qed.

Lemma fold_clean (n : nat) (comps stack : list str) :
  forallb clean comps = true ->
  fold_left (norm_step n) comps stack = rev comps ++ stack.
Proof.
  revert stack. induction comps as [|comp comps IH]; intros stack H;
    [reflexivity|].
  simpl in H. apply andb_true_iff in H as [C H]. simpl.
  rewrite norm_step_clean, IH by assumption.
  now rewrite <- app_assoc.
Qed.

(** [..] below the root of an absolute path drops the last component
    kept so far. *)
Lemma norm_step_up (top : str) (stack : list str) :
  clean top = true ->
  norm_step 1 (top :: stack) dotdot = stack.
Proof.
  intros C. destruct (clean_facts top C) as (_ & _ & D & _).
  unfold norm_step. simpl.
  destruct (Str.eqb top dotdot) eqn:E;
    [apply str_eqb_spec in E; congruence | reflexivity].
Qed.

Lemma join_sep_path_of (comp : str) (comps : list str) :
  sep :: join_sep (comp :: comps) = path_of (comp :: comps).
Proof.
  revert comp. induction comps as [|c comps IH]; intros comp.
  - unfold path_of. simpl. now rewrite app_nil_r.
  - change (join_sep (comp :: c :: comps))
      with (comp ++ sep :: join_sep (c :: comps)).
    rewrite IH. reflexivity.
Qed.

Lemma path_of_app (l1 l2 : list str) :
  path_of (l1 ++ l2) = path_of l1 ++ path_of l2.
Proof. unfold path_of. apply flat_map_app. Qed.

(** [normpath] on an absolute path with a single leading slash. *)
Lemma normpath_absolute (x : N) (t : str) :
  is_sep x = false ->
  normpath (sep :: x :: t)
  = match sep :: join_sep
             (rev (fold_left (norm_step 1) (split (sep :: x :: t)) []))
    with
    | [] => dot
    | c :: path' => c :: path'
    end.
Proof.
  intros Hx. unfold normpath. cbn [Str.startswith].
  replace (sep =? sep) with true by reflexivity.
  replace (sep =? x) with false
    by (unfold is_sep in Hx; now rewrite N.eqb_sym).
  reflexivity.
Qed.

(** The absolute path of a directory, followed by [..] twice, names
    the directory two levels above. *)
Lemma normpath_two_up (comps : list str) (a b : str) :
  forallb clean (comps ++ [a; b]) = true ->
  normpath (path_of ((comps ++ [a; b]) ++ [dotdot; dotdot]))
  = match comps with
    | [] => [sep]
    | _ :: _ => path_of comps
    end.
Proof.
  intros H.
  assert (F : Forall (fun comp => no_sep comp = true)
                ((comps ++ [a; b]) ++ [dotdot; dotdot])).
  { apply Forall_app. split.
    - rewrite forallb_forall in H. apply Forall_forall. intros c I.
      now apply clean_facts, H.
    - repeat constructor. }
  assert (EP : exists x t,
             path_of ((comps ++ [a; b]) ++ [dotdot; dotdot])
             = sep :: x :: t /\ is_sep x = false).
  { assert (S1 : exists c0 rest, comps ++ [a; b] = c0 :: rest
                                 /\ clean c0 = true).
    { destruct comps as [|c0 rest]; simpl in *.
      - exists a, [b]. apply andb_true_iff in H as [Ha _]. auto.
      - exists c0, (rest ++ [a; b]).
        apply andb_true_iff in H as [Hc _]. auto. }
    destruct S1 as (c0 & rest & E0 & C0).
    destruct (clean_facts c0 C0) as (Hne & _ & _ & N0).
    destruct c0 as [|x c0']; [congruence|].
    simpl in N0. apply andb_true_iff in N0 as [Nx _].
    apply negb_true_iff in Nx.
    exists x, (c0' ++ path_of (rest ++ [dotdot; dotdot])).
    split; [|exact Nx]. rewrite E0. reflexivity. }
  destruct EP as (x & t & EP & Hx).
  rewrite EP, (normpath_absolute x t Hx), <- EP.
  rewrite (split_path_of _ F).
  change (fold_left (norm_step 1)
            ([] :: (comps ++ [a; b]) ++ [dotdot; dotdot]) [])
    with (fold_left (norm_step 1)
            ((comps ++ [a; b]) ++ [dotdot; dotdot]) []).
  rewrite fold_left_app, (fold_clean 1 _ [] H), app_nil_r.
  rewrite rev_app_distr. cbn [rev app fold_left].
  rewrite forallb_app in H. apply andb_true_iff in H as [Hc Hab].
  simpl in Hab. apply andb_true_iff in Hab as [Ha Hb].
  apply andb_true_iff in Hb as [Hb _].
  rewrite (norm_step_up b _ Hb), (norm_step_up a _ Ha).
  rewrite rev_involutive.
  destruct comps as [|c cs]; [reflexivity|].
  now rewrite join_sep_path_of.
Qed.

Lemma after_last_sep_no_sep (name : str) :
  no_sep name = true -> after_last_sep name = O.
Proof.
  induction name as [|c t IH]; [reflexivity|]. simpl.
  intros H. apply andb_true_iff in H as [Hc Ht].
  apply negb_true_iff in Hc. now rewrite (IH Ht), Hc.
Qed.

Lemma after_last_sep_app (u name : str) :
  no_sep name = true ->
  after_last_sep (u ++ sep :: name) = S (length u).
Proof.
  intros H. induction u as [|c u IH]; simpl.
  - now rewrite (after_last_sep_no_sep name H).
  - now rewrite IH.
Qed.

Lemma rstrip_app_sep (u : str) : rstrip (u ++ [sep]) = rstrip u.
Proof.
  induction u as [|c u IH]; [reflexivity|]. simpl. now rewrite IH.
Qed.

Lemma rstrip_ends (u : str) (x : N) :
  is_sep x = false -> rstrip (u ++ [x]) = u ++ [x].
Proof.
  intros H. induction u as [|c u IH]; simpl; [now rewrite H|].
  rewrite IH. now destruct (u ++ [x]) eqn:E;
    [apply app_eq_nil in E as [_ E]; discriminate|].
Qed.

(** The path of clean components, at least one, ends with a code
    point that is no separator. *)
Lemma path_of_ends (comps : list str) (comp : str) :
  clean comp = true ->
  exists v x, path_of (comps ++ [comp]) = v ++ [x] /\ is_sep x = false.
Proof.
  intros C. destruct (clean_facts comp C) as (Hne & _ & _ & N).
  destruct (exists_last Hne) as (c' & x & ->).
  rewrite forallb_app in N. apply andb_true_iff in N as [_ N].
  simpl in N. rewrite andb_true_r in N. apply negb_true_iff in N.
  exists (path_of comps ++ sep :: c'), x. split; [|exact N].
  rewrite path_of_app. unfold path_of at 2. simpl.
  now rewrite app_nil_r, <- app_assoc.
Qed.

Lemma posix_join_plain (v : str) (x : N) (b : str) :
  is_sep x = false -> Str.startswith [sep] b = false ->
  posix_join (v ++ [x]) b = (v ++ [x]) ++ sep :: b.
Proof.
  intros Hx Hb. unfold posix_join.
  change [slash] with [sep]. rewrite Hb.
  replace (Nat.eqb (length (v ++ [x])) 0) with false
    by (rewrite length_app; simpl; symmetry; apply Nat.eqb_neq; lia).
  destruct (Str.endswith [sep] (v ++ [x])) eqn:E; [|reflexivity].
  apply endswith_spec in E as [pre E].
  apply app_inj_tail in E as [_ ->]. discriminate.
Qed.

Lemma dirname_path_of (comps : list str) (comp name : str) :
  clean comp = true -> no_sep name = true ->
  dirname (path_of ((comps ++ [comp]) ++ [name]))
  = path_of (comps ++ [comp]).
Proof.
  intros C N. destruct (path_of_ends comps comp C) as (v & x & E & Hx).
  rewrite (path_of_app (comps ++ [comp]) [name]).
  change (path_of [name]) with (sep :: name ++ []). rewrite app_nil_r.
  unfold dirname. rewrite (after_last_sep_app _ name N).
  assert (F : firstn (S (length (path_of (comps ++ [comp]))))
                (path_of (comps ++ [comp]) ++ sep :: name)
              = path_of (comps ++ [comp]) ++ [sep]).
  { replace (path_of (comps ++ [comp]) ++ sep :: name)
      with ((path_of (comps ++ [comp]) ++ [sep]) ++ name)
      by now rewrite <- app_assoc.
    replace (S (length (path_of (comps ++ [comp]))))
      with (length (path_of (comps ++ [comp]) ++ [sep]) + 0)%nat
      by (rewrite length_app; simpl; lia).
    rewrite firstn_app_2. simpl. now rewrite app_nil_r. }
  rewrite F, E.
  replace (Nat.eqb (length ((v ++ [x]) ++ [sep])) 0) with false
    by (rewrite !length_app; simpl; symmetry; apply Nat.eqb_neq; lia).
  rewrite !forallb_app. simpl. rewrite Hx. simpl.
  rewrite andb_false_r. simpl.
  now rewrite rstrip_app_sep, rstrip_ends.
Qed.

(** Joining [..] twice to the path of a directory. *)
Lemma join_two_up (comps : list str) (comp : str) :
  clean comp = true ->
  posix_join (posix_join (path_of (comps ++ [comp])) dotdot) dotdot
  = path_of ((comps ++ [comp]) ++ [dotdot; dotdot]).
Proof.
  intros C. destruct (path_of_ends comps comp C) as (v & x & E & Hx).
  rewrite (path_of_app (comps ++ [comp]) [dotdot; dotdot]), E.
  rewrite (posix_join_plain v x dotdot Hx eq_refl).
  replace ((v ++ [x]) ++ sep :: dotdot)
    with (((v ++ [x]) ++ [sep; 46]) ++ [46])
    by (now rewrite <- !app_assoc).
  rewrite (posix_join_plain _ 46 dotdot eq_refl eq_refl).
  unfold path_of. simpl. now rewrite <- !app_assoc.
Qed.

End PosixPaths.

(** X12. On POSIX the root directory of the [__main__] block is the
    directory two levels above the directory of the script: for a
    script with an absolute path in normal form, whatever the working
    directory; and for a script named by its bare file name, two levels
    above the working directory.  Two levels above a directory right
    below the root is the root. *)
Theorem X12_root_dir_two_levels_up
    (cwd : str) (comps : list str) (a b name : str) :
  forallb Posixpath.clean (comps ++ [a; b]) = true ->
  forallb (fun c => negb (Posixpath.is_sep c)) name = true ->
  Posixpath.root_dir cwd
    (Posixpath.path_of ((comps ++ [a; b]) ++ [name]))
  = match comps with
    | [] => [Posixpath.sep]
    | _ :: _ => Posixpath.path_of comps
    end
  /\ Posixpath.root_dir (Posixpath.path_of (comps ++ [a; b])) name
     = match comps with
       | [] => [Posixpath.sep]
       | _ :: _ => Posixpath.path_of comps
       end.
Proof.
  intros H N.
  assert (Hb : Posixpath.clean b = true).
  { rewrite forallb_app in H. apply andb_true_iff in H as [_ H].
    simpl in H. apply andb_true_iff in H as [_ H].
    now apply andb_true_iff in H as [H _]. }
  assert (E : comps ++ [a; b] = (comps ++ [a]) ++ [b])
    by now rewrite <- app_assoc.
  assert (J : posix_join
                (posix_join (Posixpath.path_of (comps ++ [a; b]))
                   Posixpath.dotdot) Posixpath.dotdot
              = Posixpath.path_of
                  ((comps ++ [a; b]) ++
                   [Posixpath.dotdot; Posixpath.dotdot])).
  { rewrite E. now apply join_two_up. }
  split.
  - unfold Posixpath.root_dir.
    replace (Posixpath.dirname
               (Posixpath.path_of ((comps ++ [a; b]) ++ [name])))
      with (Posixpath.path_of (comps ++ [a; b]))
      by (rewrite E; symmetry; now apply dirname_path_of).
    rewrite J. unfold Posixpath.abspath.
    replace (Posixpath.isabs
               (Posixpath.path_of
                  ((comps ++ [a; b]) ++
                   [Posixpath.dotdot; Posixpath.dotdot])))
      with true.
    + now apply normpath_two_up.
    + rewrite E. destruct comps; reflexivity.
  - unfold Posixpath.root_dir, Posixpath.dirname.
    rewrite (after_last_sep_no_sep name N). cbn [firstn length].
    cbn [Nat.eqb negb andb].
    change (posix_join (posix_join [] Posixpath.dotdot) Posixpath.dotdot)
      with [46; 46; 47; 46; 46].
    unfold Posixpath.abspath.
    change (Posixpath.isabs [46; 46; 47; 46; 46]) with false.
    cbv iota.
    destruct (path_of_ends (comps ++ [a]) b Hb) as (v & x & Ev & Hx).
    rewrite <- E in Ev.
    replace (posix_join (Posixpath.path_of (comps ++ [a; b]))
               [46; 46; 47; 46; 46])
      with (Posixpath.path_of
              ((comps ++ [a; b]) ++
               [Posixpath.dotdot; Posixpath.dotdot])).
    + now apply normpath_two_up.
    + rewrite (path_of_app (comps ++ [a; b])), Ev.
      rewrite (posix_join_plain v x [46; 46; 47; 46; 46] Hx eq_refl).
      reflexivity.
Qed.

Lemma X12_witness :
  Posixpath.root_dir (lit "/home/me")
    (Posixpath.path_of
       (([lit "repo"] ++ [lit "View"; lit "UserControls"])
        ++ [lit "rename.py"]))
  = lit "/repo".
Proof.
  destruct (X12_root_dir_two_levels_up (lit "/home/me") [lit "repo"]
              (lit "View") (lit "UserControls") (lit "rename.py")
              ltac:(vm_compute; reflexivity)
              ltac:(vm_compute; reflexivity))
    as (H & _).
  exact H.
Defined.
